(** * Direct TSQR graph construction (rcnmf/tsqr.py)

    A shallow embedding of [rcnmf.tsqr]: the block planner
    [_findnumblocks], the process-wide name generator [names] and the
    graph builder [qr], together with the properties of the task
    graphs that [qr] returns. *)

From Stdlib Require Import ZArith Lia SpecFloat Ascii.
From stdpp Require Import gmap strings list fin_maps pretty.

Local Open Scope Z_scope.

(** ** Python exceptions and the error monad *)

Inductive exn :=
  | ValueError
  | IndexError
  | ZeroDivisionError
  | OverflowError.

Inductive result (A : Type) :=
  | Ok (a : A)
  | Raise (e : exn).
Arguments Ok {A} a.
Arguments Raise {A} e.

Global Instance result_ret : MRet result := fun A a => Ok a.
Global Instance result_bind : MBind result := fun A B k r =>
  match r with
  | Ok a => k a
  | Raise e => Raise e
  end.

(** ** Binary64 arithmetic, as far as [div_ceil] uses it

    Python's [float] is IEEE 754 binary64.  Every operation returns the
    exact result rounded to the nearest representable value, ties to
    even.  A finite value is kept as a signed mantissa [m] and an
    exponent [e], standing for [m * 2^e]; the sign of a zero is not
    kept, since [int(ceil(x))] cannot observe it. *)

Module Float.

Definition prec : Z := 53.
Definition emax : Z := 1024.
Definition emin : Z := 3 - emax - prec.

Inductive float :=
  | Finite (m e : Z)
  | Infinity (neg : bool)
  | NaN.

(** Exponent of the last mantissa bit of a value of magnitude
    [2^(d-1) <= x < 2^d]. *)
Definition fexp (d : Z) : Z := Z.max (d - prec) emin.

(** [2^k] as a fraction [up k / dn k] of two positive integers. *)
Definition up (k : Z) : Z := 2 ^ Z.max 0 k.
Definition dn (k : Z) : Z := 2 ^ Z.max 0 (- k).

(** The [d] with [2^(d-1) <= n/d < 2^d], for positive [n] and [d]. *)
Definition mag (n d : Z) : Z :=
  let d0 := Z.log2 n - Z.log2 d in
  if d * up d0 <=? n * dn d0 then d0 + 1 else d0.

(** Round the positive fraction [n/d] to the nearest multiple of
    [2^e], ties to even: the mantissa. *)
Definition round_mantissa (n d e : Z) : Z :=
  let n' := n * dn e in
  let d' := d * up e in
  let q := n' `div` d' in
  let r := n' `mod` d' in
  match 2 * r ?= d' with
  | Lt => q
  | Gt => q + 1
  | Eq => if Z.even q then q else q + 1
  end.

(** Round the fraction [n/d] with sign [neg] to binary64. *)
Definition round (neg : bool) (n d : Z) : float :=
  if n =? 0 then Finite 0 0
  else
    let e := fexp (mag n d) in
    let m := round_mantissa n d e in
    let '(m, e) := if m =? 2 ^ prec then (2 ^ (prec - 1), e + 1) else (m, e) in
    if emax - prec <? e then Infinity neg
    else Finite (if neg then - m else m) e.

(** [float(a)] for a Python integer [a]. *)
Definition of_int (a : Z) : result float :=
  match round (a <? 0) (Z.abs a) 1 with
  | Finite m e => Ok (Finite m e)
  | _ => Raise OverflowError
  end.

Definition is_zero (x : float) : bool :=
  match x with
  | Finite m _ => m =? 0
  | _ => false
  end.

(** [x / y] for a non-zero [y]. *)
Definition div (x y : float) : float :=
  match x, y with
  | NaN, _ | _, NaN => NaN
  | Infinity _, Infinity _ => NaN
  | Infinity s, Finite m _ => Infinity (xorb s (m <? 0))
  | Finite m _, Infinity _ => Finite 0 0
  | Finite m1 e1, Finite m2 e2 =>
      round (xorb (m1 <? 0) (m2 <? 0))
            (Z.abs m1 * up (e1 - e2)) (Z.abs m2 * dn (e1 - e2))
  end.

(** [int(math.ceil(x))]. *)
Definition int_ceil (x : float) : result Z :=
  match x with
  | Finite m e => Ok (- ((- (m * up e)) `div` dn e))
  | Infinity _ => Raise OverflowError
  | NaN => Raise ValueError
  end.

(** The same value in the Standard Library's specification of
    IEEE 754 arithmetic, to compare the two on concrete inputs. *)
Definition to_spec (x : float) : spec_float :=
  match x with
  | Finite (Zpos m) e => S754_finite false m e
  | Finite (Zneg m) e => S754_finite true m e
  | Finite Z0 _ => S754_zero false
  | Infinity s => S754_infinity s
  | NaN => S754_nan
  end.

(** [float(a)] overflows from this magnitude on. *)
Definition int_bound : Z := 2 ^ emax - 2 ^ (emax - prec - 1).

Definition spec_of_int (a : Z) : spec_float :=
  binary_normalize prec emax a 0 false.

(** [float(a) / b] here and in the Standard Library's specification. *)
Definition quotient (t : Z * Z) : result spec_float :=
  x ← of_int t.1; y ← of_int t.2; Ok (to_spec (div x y)).

Definition spec_quotient (t : Z * Z) : spec_float :=
  SFdiv prec emax (spec_of_int t.1) (spec_of_int t.2).

(** Pairs to compare the two on: exact and inexact quotients, ties,
    integers beyond [2^53], a subnormal quotient and the largest
    finite values. *)
Definition samples : list (Z * Z) :=
  [(10, 5); (10, 3); (1, 3); (7, 7); (2 ^ 53 + 1, 2 ^ 52); (2 ^ 53 + 1, 1);
   (2 ^ 53 + 3, 1); (2 ^ 60 + 12345, 3); (1, 2 ^ 1023);
   (2 ^ 1024 - 2 ^ 971, 3); (123456789123456789, 1000000007);
   (3, 2 ^ 70 + 1); (2 ^ 1023 + 2 ^ 969, 1); (2 ^ 54 + 2, 2 ^ 54 + 6);
   (9007199254740993, 3); (2 ^ 1024 - 2 ^ 970 - 1, 2 ^ 1024 - 2 ^ 970 - 1)].

End Float.

(** ** The block planner *)

(** [div_ceil] of [_findnumblocks]:
    [int(ceil(float(t[0]) / t[1]))]. *)
Definition div_ceil (t : Z * Z) : result Z :=
  x ← Float.of_int (fst t);
  y ← Float.of_int (snd t);
  if Float.is_zero y then Raise ZeroDivisionError
  else Float.int_ceil (Float.div x y).

(** The exact ceiling of the quotient [m / br]: the least [k] with
    [m <= k * br]. *)
Definition ceil_div (m br : Z) : Z := - ((- m) `div` br).

(** [_findnumblocks(shape, blockshape)]: [div_ceil] over
    [zip(shape, blockshape)], as a tuple. *)
Definition _findnumblocks (shape blockshape : list Z) : result (list Z) :=
  mapM div_ceil (zip shape blockshape).

(** ** Task graphs

    A task key is a tuple [(name, i, j)]: a string followed by block
    indices.  A task is a tuple whose head is a callable and whose
    other items are task keys, integers or tuples of slices.  The
    callables are the four that [qr] uses, and [other] for the tasks of
    the input's own graph. *)

Definition key : Type := string * list Z.

Inductive callable :=
  | np_linalg_qr
  | operator_getitem
  | _vstack
  | np_dot
  | other (f : string).

Inductive arg :=
  | Key (k : key)
  | Int (z : Z)
  | Slices (l : list (Z * Z)).

Definition task : Type := callable * list arg.

(** A Python [dict] built from (key, value) pairs in order: a later
    pair replaces an earlier one with the same key. *)
Definition dict_of {V} (l : list (key * V)) : gmap key V :=
  foldl (fun d kv => <[kv.1 := kv.2]> d) ∅ l.

(** [d.update(other)]. *)
Definition update {V} (d other : gmap key V) : gmap key V := other ∪ d.

(** [xrange(n)] and [range(n)]: the integers from 0 up to [n], none
    when [n] is not positive.  Python integers are unbounded; the limit
    of CPython's [xrange] to machine integers is an implementation
    detail that is not modelled. *)
Definition xrange (n : Z) : list Z := seqZ 0 n.

(** [itertools.product] of the lists [ls]: the last list varies
    fastest. *)
Fixpoint product (ls : list (list Z)) : list (list Z) :=
  match ls with
  | [] => [[]]
  | l :: ls' => i ← l; (fun ijk => i :: ijk) <$> product ls'
  end.

(** [l[i]]. *)
Definition index {A} (l : list A) (i : nat) : result A :=
  match l !! i with
  | Some x => Ok x
  | None => Raise IndexError
  end.

(** ** The chunked arrays of dask

    Modelled from dask.array, the library [qr] is written against: an
    array is a graph, the name of its blocks, a shape and the block
    extents per axis; [ndim] is the length of the shape. *)

Module da.

Record Array := {
  dask : gmap key task;
  name : string;
  shape : list Z;
  blockdims : list (list Z);
}.

Definition ndim (a : Array) : nat := length (shape a).

(** Block extents of one axis of length [d] cut in blocks of [bd]:
    [(bd,) * (d // bd) + ((d % bd,) if d % bd else ())]. *)
Definition axis_blocks (d bd : Z) : result (list Z) :=
  if bd =? 0 then Raise ZeroDivisionError
  else Ok (replicate (Z.to_nat (d `div` bd)) bd
           ++ (if d `mod` bd =? 0 then [] else [d `mod` bd])).

Definition blockdims_from_blockshape (shape blockshape : list Z)
  : result (list (list Z)) :=
  mapM (fun t => axis_blocks t.1 t.2) (zip shape blockshape).

(** [da.Array(dask, name, shape=shape, blockshape=blockshape)]. *)
Definition mkArray (dsk : gmap key task) (name : string)
    (shape blockshape : list Z) : result Array :=
  bds ← blockdims_from_blockshape shape blockshape;
  Ok {| dask := dsk; name := name; shape := shape; blockdims := bds |}.

(** [da.core.top(func, output, 'ij', a, 'ij', ..., numblocks=...)] where
    every argument carries the indices of the output and the block
    grid [numblocks]: block [(output, i, j)] applies [func] to the
    blocks [(a, i, j)] of the arguments. *)
Definition top (func : callable) (output : string) (args : list string)
    (numblocks : list Z) : gmap key task :=
  dict_of ((fun ij => ((output, ij), (func, (fun a => Key (a, ij)) <$> args)))
           <$> product (xrange <$> numblocks)).

End da.

(** ** The name generator

    [names = ('tsqr_%d' % i for i in count(1))]: the state of the
    generator is the next value of the counter. *)

Definition names_init : N := 1%N.

(** [next(names)]. *)
Definition next_names (names : N) : string * N :=
  ("tsqr_" +:+ pretty names, N.succ names).

(** ** The graph builder [qr] *)

Section Stages.

Variable prefix : string.
Variable data_name : string.
Variable numblocks : list Z.
Variable nblocks : Z.           (* numblocks[0] *)
Variable n : Z.

Definition name_qr_st1 := prefix +:+ "QR_st1".
Definition dsk_qr_st1 : gmap key task :=
  da.top np_linalg_qr name_qr_st1 [data_name] numblocks.

Definition name_q_st1 := prefix +:+ "Q_st1".
Definition dsk_q_st1 : gmap key task :=
  dict_of ((fun i => ((name_q_st1, [i; 0]),
                      (operator_getitem, [Key (name_qr_st1, [i; 0]); Int 0])))
           <$> xrange nblocks).

Definition name_r_st1 := prefix +:+ "R_st1".
Definition dsk_r_st1 : gmap key task :=
  dict_of ((fun i => ((name_r_st1, [i; 0]),
                      (operator_getitem, [Key (name_qr_st1, [i; 0]); Int 1])))
           <$> xrange nblocks).

(** [to_stack] without its head [_vstack], which is the callable of
    the task. *)
Definition to_stack : list arg :=
  (fun i => Key (name_r_st1, [i; 0])) <$> xrange nblocks.
Definition name_r_st1_stacked := prefix +:+ "R_st1_stacked".
Definition dsk_r_st1_stacked : gmap key task :=
  dict_of [((name_r_st1_stacked, [0; 0]), (_vstack, to_stack))].

Definition name_qr_st2 := prefix +:+ "QR_st2".
Definition dsk_qr_st2 : gmap key task :=
  da.top np_linalg_qr name_qr_st2 [name_r_st1_stacked] [1; 1].

Definition name_q_st2_aux := prefix +:+ "Q_st2_aux".
Definition dsk_q_st2_aux : gmap key task :=
  dict_of [((name_q_st2_aux, [0; 0]),
            (operator_getitem, [Key (name_qr_st2, [0; 0]); Int 0]))].

Definition name_q_st2 := prefix +:+ "Q_st2".
Definition dsk_q_st2 : gmap key task :=
  dict_of ((fun ijk =>
              ((name_q_st2, ijk),
               (operator_getitem,
                [Key (name_q_st2_aux, [0; 0]);
                 Slices ((fun '(i, d) => (i * d, (i + 1) * d))
                         <$> zip ijk [n; n])])))
           <$> product (xrange <$> numblocks)).

Definition name_r_st2 := prefix +:+ "R".
Definition dsk_r_st2 : gmap key task :=
  dict_of [((name_r_st2, [0; 0]),
            (operator_getitem, [Key (name_qr_st2, [0; 0]); Int 1]))].

Definition name_q_st3 := prefix +:+ "Q".
Definition dsk_q_st3 : gmap key task :=
  da.top np_dot name_q_st3 [name_q_st1; name_q_st2] numblocks.

Variable data_dask : gmap key task.

Definition dsk_q : gmap key task :=
  let d := ∅ in
  let d := update d data_dask in
  let d := update d dsk_qr_st1 in
  let d := update d dsk_q_st1 in
  let d := update d dsk_r_st1 in
  let d := update d dsk_r_st1_stacked in
  let d := update d dsk_qr_st2 in
  let d := update d dsk_q_st2_aux in
  let d := update d dsk_q_st2 in
  update d dsk_q_st3.

Definition dsk_r : gmap key task :=
  let d := ∅ in
  let d := update d data_dask in
  let d := update d dsk_qr_st1 in
  let d := update d dsk_r_st1 in
  let d := update d dsk_r_st1_stacked in
  let d := update d dsk_qr_st2 in
  update d dsk_r_st2.

End Stages.

(** The validation of [qr], and what it reads from [data] before the
    prefix is chosen: the block shape and [m, n = data.shape]. *)
Definition check (data : da.Array) : result (list Z * Z * Z) :=
  ok ← (if bool_decide (da.ndim data = 2%nat)
        then (bd1 ← index (da.blockdims data) 1;
              Ok (bool_decide (length bd1 = 1%nat)))
        else Ok false);
  if negb ok then Raise ValueError
  else
    bd0 ← index (da.blockdims data) 0;
    br ← index bd0 0;
    bd1 ← index (da.blockdims data) 1;
    bc ← index bd1 0;
    match da.shape data with
    | [m; n] => Ok ([br; bc], m, n)
    | _ => Raise ValueError
    end.

(** [prefix = name or next(names)]: an absent or empty name draws from
    the generator. *)
Definition choose_prefix (name : option string) (names : N) : string * N :=
  match name with
  | Some (String c s) => (String c s, names)
  | Some EmptyString | None => next_names names
  end.

(** The prefix a call uses. *)
Definition prefix_of (name : option string) (names : N) : string :=
  (choose_prefix name names).1 +:+ "_".

(** What [qr] builds once the prefix is chosen. *)
Definition build (data : da.Array) (prefix0 : string)
    (blockshape : list Z) (n : Z) : result (da.Array * da.Array) :=
  let prefix := prefix0 +:+ "_" in
  numblocks ← _findnumblocks (da.shape data) blockshape;
  nblocks ← index numblocks 0;
  q ← da.mkArray
         (dsk_q prefix (da.name data) numblocks nblocks n (da.dask data))
         (name_q_st3 prefix) (da.shape data) blockshape;
  r ← da.mkArray
         (dsk_r prefix (da.name data) numblocks nblocks (da.dask data))
         (name_r_st2 prefix) [n; n] [n; n];
  Ok (q, r).

(** [qr(data, name)], with the state of [names] before and after. *)
Definition qr (data : da.Array) (name : option string) (names : N)
  : result (da.Array * da.Array) * N :=
  match check data with
  | Raise e => (Raise e, names)
  | Ok (blockshape, m, n) =>
      let '(prefix0, names') := choose_prefix name names in
      (build data prefix0 blockshape n, names')
  end.

(** ** Vocabulary of the specification *)

(** The extents of the row blocks of [m] rows cut in blocks of [br]
    rows: full blocks, then a shorter last block if [br] does not
    divide [m]. *)
Definition row_blocks (m br : Z) : list Z :=
  replicate (Z.to_nat (m `div` br)) br
  ++ (if m `mod` br =? 0 then [] else [m `mod` br]).

(** The accepted inputs of the specification: a two-dimensional array
    of [m] rows and [n] columns, both positive, cut in row blocks of
    height [br] (the last one may be shorter) and one column block.
    The dimensions convert to [float]: beyond [Float.int_bound] the
    block planner raises [OverflowError]. *)
Record valid_input (data : da.Array) (m n br : Z) : Prop := {
  valid_shape : da.shape data = [m; n];
  valid_blockdims : da.blockdims data = [row_blocks m br; [n]];
  valid_br : 0 < br <= m;
  valid_n : 0 < n;
  valid_m_float : m < Float.int_bound;
  valid_n_float : n < Float.int_bound;
}.

(** The keys a task depends on. *)
Definition deps (t : task) : list key :=
  omap (fun a => match a with Key k => Some k | _ => None end) t.2.

(** The row-block index of a key [(name, i, j)]. *)
Definition block_of (k : key) : option Z := head k.2.

(** The Stage2 stack task: [_vstack] applied to the local triangular
    factors in ascending order of their block index. *)
Definition stack_task (prefix : string) (nblocks : Z) : task :=
  (_vstack, (fun i => Key (name_r_st1 prefix, [i; 0])) <$> seqZ 0 nblocks).

(** The stages, as sets of the dictionaries of [qr]. *)
Definition stage1 (prefix data_name : string) (numblocks : list Z)
    (nblocks : Z) : gmap key task :=
  update (update (dsk_qr_st1 prefix data_name numblocks)
                 (dsk_q_st1 prefix nblocks))
         (dsk_r_st1 prefix nblocks).

Definition stage2 (prefix : string) (nblocks : Z) : gmap key task :=
  update (update (dsk_r_st1_stacked prefix nblocks) (dsk_qr_st2 prefix))
         (dsk_r_st2 prefix).

Definition stage3 (prefix : string) (numblocks : list Z) (n : Z)
  : gmap key task :=
  update (dsk_q_st2_aux prefix) (dsk_q_st2 prefix numblocks n).

Definition assembly (prefix : string) (numblocks : list Z) : gmap key task :=
  dsk_q_st3 prefix numblocks.

(** Every task dictionary a call builds, the input's graph apart. *)
Definition created (prefix data_name : string) (numblocks : list Z)
    (nblocks n : Z) : gmap key task :=
  update (update (update (stage1 prefix data_name numblocks nblocks)
                         (stage2 prefix nblocks))
                 (stage3 prefix numblocks n))
         (assembly prefix numblocks).

(** The characters of a string. *)
Fixpoint chars (s : string) : list ascii :=
  match s with
  | EmptyString => []
  | String c s' => c :: chars s'
  end.

(** What the nine task families append to the prefix. *)
Definition suffixes : list string :=
  ["QR_st1"; "Q_st1"; "R_st1"; "R_st1_stacked"; "QR_st2"; "Q_st2_aux";
   "Q_st2"; "R"; "Q"].

(** A dictionary whose keys all carry one name. *)
Definition named (name : string) (d : gmap key task) : Prop :=
  forall k t, d !! k = Some t -> k.1 = name.

(** A call draws from the name generator when its input passes the
    validation. *)
Definition accepted (data : da.Array) : Prop :=
  exists x, check data = Ok x.

(** The tasks a call of [qr] creates; none when it raises before any
    dictionary is built. *)
Definition new_tasks (data : da.Array) (name : option string) (names : N)
  : gmap key task :=
  match check data with
  | Raise _ => ∅
  | Ok (blockshape, m, n) =>
      let prefix := prefix_of name names in
      match _findnumblocks (da.shape data) blockshape with
      | Ok (nblocks :: numblocks') =>
          created prefix (da.name data) (nblocks :: numblocks') nblocks n
      | _ => ∅
      end
  end.

(** The orthogonal factor's graph in the words of the specification:
    the input's graph with all Stage1, Stage2, Stage3 and Assembly
    dictionaries. *)
Definition spec_dsk_q (prefix data_name : string) (numblocks : list Z)
    (nblocks n : Z) (data_dask : gmap key task) : gmap key task :=
  update (update (update (update data_dask
                                 (stage1 prefix data_name numblocks nblocks))
                         (stage2 prefix nblocks))
                 (stage3 prefix numblocks n))
         (assembly prefix numblocks).

(** The triangular factor's graph in the words of the specification:
    the input's graph, Stage1's triangular extractions and Stage2. *)
Definition spec_dsk_r (prefix : string) (nblocks : Z)
    (data_dask : gmap key task) : gmap key task :=
  update (update data_dask (dsk_r_st1 prefix nblocks)) (stage2 prefix nblocks).

(** A session: calls of [qr] one after the other on the shared
    generator; each call is listed with the state of [names] it
    started from. *)
Fixpoint session (calls : list (da.Array * option string)) (names : N)
  : list (N * result (da.Array * da.Array)) :=
  match calls with
  | [] => []
  | (data, name) :: calls' =>
      let '(res, names') := qr data name names in
      (names, res) :: session calls' names'
  end.

(** The 10 by 2 array in two row blocks of the specification's
    scenario, and an array of [2^53 + 1] rows in row blocks of height
    [2^52]. *)
Definition input_block (name : string) (i : Z) : key * task :=
  ((name, [i; 0]), (other "load", [Int i])).

Definition scenario : da.Array :=
  {| da.dask := dict_of [input_block "x" 0; input_block "x" 1];
     da.name := "x";
     da.shape := [10; 2];
     da.blockdims := [[5; 5]; [2]] |}.

Definition tall : da.Array :=
  {| da.dask := dict_of [input_block "y" 0; input_block "y" 1;
                         input_block "y" 2];
     da.name := "y";
     da.shape := [2 ^ 53 + 1; 1];
     da.blockdims := [[2 ^ 52; 2 ^ 52; 1]; [1]] |}.

(** Inputs that [qr] rejects: one and three dimensions, and two column
    blocks. *)
Definition vector : da.Array :=
  {| da.dask := dict_of [(("v", [0]), (other "load", [Int 0]))];
     da.name := "v";
     da.shape := [10];
     da.blockdims := [[10]] |}.

Definition two_columns : da.Array :=
  {| da.dask := dict_of [(("w", [0; 0]), (other "load", [Int 0]));
                         (("w", [0; 1]), (other "load", [Int 1]))];
     da.name := "w";
     da.shape := [10; 4];
     da.blockdims := [[10]; [2; 2]] |}.

(** A shape violation: the number of dimensions is not two, or the
    second axis is not cut in exactly one block. *)
Definition shape_violation (data : da.Array) : Prop :=
  da.ndim data <> 2%nat \/
  exists bd1, da.blockdims data !! 1%nat = Some bd1 /\ length bd1 <> 1%nat.
(** ** Further vocabulary: graphs, sessions and inputs *)

(** A graph is closed when every key a task depends on is bound. *)
Definition closed (g : gmap key task) : Prop :=
  forall k t, g !! k = Some t -> forall k', k' ∈ deps t -> is_Some (g !! k').

(** [reach g k k']: in the graph [g] the task of [k] depends on [k'],
    directly or through other tasks. *)
Inductive reach (g : gmap key task) : key -> key -> Prop :=
  | reach_edge k t k' :
      g !! k = Some t -> k' ∈ deps t -> reach g k k'
  | reach_step k t k' k'' :
      g !! k = Some t -> k' ∈ deps t -> reach g k' k'' -> reach g k k''.

(** A key outside the namespace of a prefix: its name is not the
    prefix followed by the suffix of a task family. *)
Definition outside (prefix : string) (k : key) : Prop :=
  forall a, a ∈ suffixes -> k.1 <> prefix +:+ a.

(** The stage of a name under a prefix: 0 for a name of no task
    family, then the families in the order of the data flow. *)
Definition rank (prefix name : string) : nat :=
  if decide (name = name_qr_st1 prefix) then 1
  else if decide (name = name_q_st1 prefix) then 2
  else if decide (name = name_r_st1 prefix) then 2
  else if decide (name = name_r_st1_stacked prefix) then 3
  else if decide (name = name_qr_st2 prefix) then 4
  else if decide (name = name_q_st2_aux prefix) then 5
  else if decide (name = name_r_st2 prefix) then 5
  else if decide (name = name_q_st2 prefix) then 6
  else if decide (name = name_q_st3 prefix) then 7
  else 0.

(** Whether a call draws a name from the generator: its input passes
    the validation and no non-empty name is given. *)
Definition draws (data : da.Array) (name : option string) : bool :=
  match check data, name with
  | Ok _, None | Ok _, Some EmptyString => true
  | _, _ => false
  end.

(** The state of the generator after a session. *)
Fixpoint session_end (calls : list (da.Array * option string)) (names : N) : N :=
  match calls with
  | [] => names
  | (data, name) :: calls' => session_end calls' (qr data name names).2
  end.

(** An array that passes the validation although its first row block
    is empty. *)
Definition empty_first_block : da.Array :=
  {| da.dask := dict_of [input_block "z" 0; input_block "z" 1];
     da.name := "z";
     da.shape := [5; 2];
     da.blockdims := [[0; 5]; [2]] |}.

(** The array of the scenario under a name that a call named ["t"]
    uses for its local factorizations. *)
Definition colliding : da.Array :=
  {| da.dask := dict_of [input_block "t_QR_st1" 0; input_block "t_QR_st1" 1];
     da.name := "t_QR_st1";
     da.shape := [10; 2];
     da.blockdims := [[5; 5]; [2]] |}.

(** An array that passes the validation with row blocks of unequal
    heights: 2, 5 and 3 rows. *)
Definition irregular : da.Array :=
  {| da.dask := dict_of [input_block "u" 0; input_block "u" 1;
                         input_block "u" 2];
     da.name := "u";
     da.shape := [10; 2];
     da.blockdims := [[2; 5; 3]; [2]] |}.

(** A call without a name of its own: [name or next(names)] takes the
    empty string for an absent name. *)
Definition unnamed (name : option string) : Prop :=
  name = None \/ name = Some "".


(** ** Facts about binary64 rounding *)

Module FloatFacts.
Import Float.

(** The model agrees with the Standard Library's specification of
    binary64 division on the samples. *)
Lemma quotient_agrees :
  Forall (fun t => quotient t = Ok (spec_quotient t)) samples.
Proof. repeat (constructor; [vm_compute; reflexivity|]). constructor. Qed.

Lemma up_pos k : 0 < up k.
Proof. unfold up. apply Z.pow_pos_nonneg; lia. Qed.

Lemma dn_pos k : 0 < dn k.
Proof. unfold dn. apply Z.pow_pos_nonneg; lia. Qed.

Lemma up_dn_nonneg k : 0 <= k -> up k = 2 ^ k /\ dn k = 1.
Proof.
  intros Hk. unfold up, dn.
  rewrite (Z.max_r 0 k) by lia. rewrite (Z.max_l 0 (- k)) by lia. auto.
Qed.

Lemma up_dn_nonpos k : k <= 0 -> up k = 1 /\ dn k = 2 ^ (- k).
Proof.
  intros Hk. unfold up, dn.
  rewrite (Z.max_l 0 k) by lia. rewrite (Z.max_r 0 (- k)) by lia. auto.
Qed.

Ltac pow2_eq :=
  rewrite ?Z.mul_1_l, ?Z.mul_1_r;
  rewrite <- ?Z.pow_add_r by lia;
  match goal with
  | |- 2 ^ ?x = 2 ^ ?y => f_equal; lia
  | |- 1 = 2 ^ ?y => replace y with 0 by lia; reflexivity
  | |- 2 ^ ?x = 1 => replace x with 0 by lia; reflexivity
  | |- 1 = 1 => reflexivity
  end.

(** [2^(a+b) = 2^a * 2^b], on fractions. *)
Lemma up_dn_add a b :
  up (a + b) * (dn a * dn b) = dn (a + b) * (up a * up b).
Proof.
  destruct (Z.le_ge_cases 0 a) as [Ha|Ha], (Z.le_ge_cases 0 b) as [Hb|Hb],
           (Z.le_ge_cases 0 (a + b)) as [Hab|Hab];
    repeat match goal with
      | H : 0 <= ?k |- context [up ?k] =>
          destruct (up_dn_nonneg k H) as [-> ->]
      | H : ?k <= 0 |- context [up ?k] =>
          destruct (up_dn_nonpos k H) as [-> ->]
      end; pow2_eq.
Qed.

Lemma up_dn_le k1 k2 : k1 <= k2 -> up k1 * dn k2 <= up k2 * dn k1.
Proof.
  intros Hk. pose proof (up_dn_add k1 (k2 - k1)) as E.
  replace (k1 + (k2 - k1)) with k2 in E by lia.
  destruct (up_dn_nonneg (k2 - k1)) as [E1 E2]; [lia|].
  rewrite E1, E2 in E.
  assert (1 <= 2 ^ (k2 - k1)) by (apply Z.pow_le_mono_r with (b := 0); lia).
  pose proof (up_pos k1). pose proof (dn_pos k2). nia.
Qed.

(** [mag n d] is the binary order of magnitude of [n/d]. *)
Lemma mag_spec n d :
  0 < n -> 0 < d ->
  d * up (mag n d - 1) <= n * dn (mag n d - 1) /\
  n * dn (mag n d) < d * up (mag n d).
Proof.
  intros Hn Hd. unfold mag.
  pose proof (Z.log2_spec n Hn) as [Hn1 Hn2].
  pose proof (Z.log2_spec d Hd) as [Hd1 Hd2].
  pose proof (Z.log2_nonneg n) as Ln. pose proof (Z.log2_nonneg d) as Ld.
  set (ln := Z.log2 n) in *. set (ld := Z.log2 d) in *.
  set (d0 := ln - ld).
  assert (A : n * dn (d0 + 1) < d * up (d0 + 1)).
  { pose proof (up_dn_add (d0 + 1) ld) as E.
    replace (d0 + 1 + ld) with (Z.succ ln) in E by (unfold d0; lia).
    destruct (up_dn_nonneg (Z.succ ln)) as [E1 E2]; [lia|].
    destruct (up_dn_nonneg ld) as [E3 E4]; [lia|].
    rewrite E1, E2, E3, E4 in E.
    pose proof (up_pos (d0 + 1)). pose proof (dn_pos (d0 + 1)). nia. }
  assert (B : d * up (d0 - 1) <= n * dn (d0 - 1)).
  { pose proof (up_dn_add (d0 - 1) (Z.succ ld)) as E.
    replace (d0 - 1 + Z.succ ld) with ln in E by (unfold d0; lia).
    destruct (up_dn_nonneg ln) as [E1 E2]; [lia|].
    destruct (up_dn_nonneg (Z.succ ld)) as [E3 E4]; [lia|].
    rewrite E1, E2, E3, E4 in E.
    pose proof (up_pos (d0 - 1)). pose proof (dn_pos (d0 - 1)). nia. }
  destruct (d * up d0 <=? n * dn d0) eqn:T.
  - apply Z.leb_le in T. replace (d0 + 1 - 1) with d0 by lia. auto.
  - apply Z.leb_gt in T. auto.
Qed.

Lemma mag_unique n d g :
  0 < n -> 0 < d ->
  d * up (g - 1) <= n * dn (g - 1) ->
  n * dn g < d * up g ->
  mag n d = g.
Proof.
  intros Hn Hd L U. destruct (mag_spec n d Hn Hd) as [L' U'].
  set (g' := mag n d) in *.
  destruct (Z.lt_trichotomy g' g) as [C|[C|C]]; [exfalso|assumption|exfalso].
  - pose proof (up_dn_le g' (g - 1) ltac:(lia)) as M.
    pose proof (up_pos g'). pose proof (dn_pos g').
    pose proof (up_pos (g - 1)). pose proof (dn_pos (g - 1)).
    assert (n * dn g' * dn (g - 1) < d * up g' * dn (g - 1)) by nia.
    assert (d * (up g' * dn (g - 1)) <= d * (up (g - 1) * dn g')) by nia.
    assert (d * up (g - 1) * dn g' <= n * dn (g - 1) * dn g') by nia.
    lia.
  - pose proof (up_dn_le g (g' - 1) ltac:(lia)) as M.
    pose proof (up_pos g). pose proof (dn_pos g).
    pose proof (up_pos (g' - 1)). pose proof (dn_pos (g' - 1)).
    assert (n * dn g * dn (g' - 1) < d * up g * dn (g' - 1)) by nia.
    assert (d * (up g * dn (g' - 1)) <= d * (up (g' - 1) * dn g)) by nia.
    assert (d * up (g' - 1) * dn g <= n * dn (g' - 1) * dn g) by nia.
    lia.
Qed.

(** Rounding depends on the value of the fraction only. *)
Lemma mag_scale c n d :
  0 < c -> 0 < n -> 0 < d -> mag (c * n) (c * d) = mag n d.
Proof.
  intros Hc Hn Hd. destruct (mag_spec n d Hn Hd) as [L U].
  apply mag_unique; nia.
Qed.

Lemma round_mantissa_scale c n d e :
  0 < c -> 0 < d ->
  round_mantissa (c * n) (c * d) e = round_mantissa n d e.
Proof.
  intros Hc Hd. unfold round_mantissa.
  pose proof (up_pos e) as Hu.
  replace (c * n * dn e) with (c * (n * dn e)) by lia.
  replace (c * d * up e) with (c * (d * up e)) by lia.
  rewrite Z.div_mul_cancel_l by nia.
  rewrite Z.mul_mod_distr_l by nia.
  replace (2 * (c * ((n * dn e) `mod` (d * up e))))
    with (c * (2 * ((n * dn e) `mod` (d * up e)))) by lia.
  rewrite <- Zmult_compare_compat_l by lia. reflexivity.
Qed.

Lemma round_scale s c n d :
  0 < c -> 0 < n -> 0 < d -> round s (c * n) (c * d) = round s n d.
Proof.
  intros Hc Hn Hd. unfold round.
  rewrite mag_scale, round_mantissa_scale by assumption.
  destruct (Z.eqb_spec (c * n) 0), (Z.eqb_spec n 0); try nia; reflexivity.
Qed.

Lemma round_ext s n1 d1 n2 d2 :
  0 < n1 -> 0 < d1 -> 0 < n2 -> 0 < d2 ->
  n1 * d2 = n2 * d1 -> round s n1 d1 = round s n2 d2.
Proof.
  intros H1 H2 H3 H4 E.
  rewrite <- (round_scale s d2 n1 d1) by assumption.
  rewrite <- (round_scale s d1 n2 d2) by assumption.
  f_equal; lia.
Qed.

(** The rounded mantissa is within one half of the exact quotient,
    and rounding is monotone with respect to integers. *)
Lemma round_mantissa_bounds n d e :
  0 <= n -> 0 < d ->
  let m := round_mantissa n d e in
  (2 * m - 1) * (d * up e) <= 2 * (n * dn e) <= (2 * m + 1) * (d * up e).
Proof.
  intros Hn Hd. unfold round_mantissa.
  pose proof (up_pos e). pose proof (dn_pos e).
  set (n' := n * dn e). set (d' := d * up e).
  assert (Hd' : 0 < d') by (unfold d'; nia).
  pose proof (Z.div_mod n' d' ltac:(lia)) as E.
  pose proof (Z.mod_pos_bound n' d' Hd') as R.
  set (q := n' `div` d') in *. set (r := n' `mod` d') in *.
  destruct (Z.compare_spec (2 * r) d'); [destruct (Z.even q)| |]; simpl; nia.
Qed.

Lemma round_mantissa_ge n d e k :
  0 <= n -> 0 < d -> k * (d * up e) <= n * dn e -> k <= round_mantissa n d e.
Proof.
  intros Hn Hd Hk. unfold round_mantissa.
  pose proof (up_pos e). pose proof (dn_pos e).
  set (n' := n * dn e) in *. set (d' := d * up e) in *.
  assert (Hd' : 0 < d') by (unfold d'; nia).
  assert (k <= n' `div` d') by (apply Z.div_le_lower_bound; lia).
  destruct (2 * (n' `mod` d') ?= d'); [destruct (Z.even _)| |]; lia.
Qed.

Lemma round_mantissa_le n d e k :
  0 <= n -> 0 < d -> n * dn e <= k * (d * up e) -> round_mantissa n d e <= k.
Proof.
  intros Hn Hd Hk. unfold round_mantissa.
  pose proof (up_pos e). pose proof (dn_pos e).
  set (n' := n * dn e) in *. set (d' := d * up e) in *.
  assert (Hd' : 0 < d') by (unfold d'; nia).
  pose proof (Z.div_mod n' d' ltac:(lia)) as E.
  pose proof (Z.mod_pos_bound n' d' Hd') as R.
  set (q := n' `div` d') in *. set (r := n' `mod` d') in *.
  assert (q < k \/ (q = k /\ r = 0)) as [C|[C1 C2]] by nia.
  - destruct (2 * r ?= d'); [destruct (Z.even q)| |]; lia.
  - destruct (Z.compare_spec (2 * r) d'); [destruct (Z.even q)| |]; lia.
Qed.

(** In the normal range the mantissa has exactly [prec] bits, up to
    the carry to [2^prec]. *)
Lemma round_mantissa_normal n d :
  0 < n -> 0 < d -> emin <= mag n d - prec ->
  2 ^ (prec - 1) <= round_mantissa n d (mag n d - prec) <= 2 ^ prec.
Proof.
  intros Hn Hd Hg. destruct (mag_spec n d Hn Hd) as [L U].
  set (g := mag n d) in *. set (e := g - prec).
  pose proof (up_pos e). pose proof (dn_pos e).
  pose proof (up_pos g). pose proof (dn_pos g).
  pose proof (up_pos (g - 1)). pose proof (dn_pos (g - 1)).
  split.
  - apply round_mantissa_ge; [lia|lia|].
    pose proof (up_dn_add (prec - 1) e) as E.
    replace (prec - 1 + e) with (g - 1) in E by (unfold e; lia).
    destruct (up_dn_nonneg (prec - 1)) as [E1 E2]; [unfold prec; lia|].
    rewrite E1, E2 in E.
    assert (2 ^ (prec - 1) * (d * up e) * dn (g - 1)
            <= n * dn e * dn (g - 1)) by nia.
    nia.
  - apply round_mantissa_le; [lia|lia|].
    pose proof (up_dn_add prec e) as E.
    replace (prec + e) with g in E by (unfold e; lia).
    destruct (up_dn_nonneg prec) as [E1 E2]; [unfold prec; lia|].
    rewrite E1, E2 in E.
    assert (n * dn e * dn g <= 2 ^ prec * (d * up e) * dn g) by nia.
    nia.
Qed.

Lemma round_mantissa_upper n d e :
  0 < n -> 0 < d -> mag n d - prec <= e ->
  round_mantissa n d e <= 2 ^ prec.
Proof.
  intros Hn Hd He. destruct (mag_spec n d Hn Hd) as [_ U].
  set (g := mag n d) in *.
  pose proof (up_pos e). pose proof (dn_pos e).
  pose proof (up_pos g). pose proof (dn_pos g).
  pose proof (up_pos (prec + e)). pose proof (dn_pos (prec + e)).
  apply round_mantissa_le; [lia|lia|].
  pose proof (up_dn_add prec e) as E.
  destruct (up_dn_nonneg prec) as [E1 E2]; [unfold prec; lia|].
  rewrite E1, E2 in E.
  pose proof (up_dn_le g (prec + e) ltac:(lia)) as M.
  assert (n * dn e * (dn g * dn (prec + e))
          <= d * dn e * (up g * dn (prec + e))) by nia.
  assert (d * dn e * (up g * dn (prec + e))
          <= d * dn e * (up (prec + e) * dn g)) by nia.
  assert (d * dn e * (up (prec + e) * dn g)
          = 2 ^ prec * (d * up e) * (dn g * dn (prec + e))) by nia.
  assert (0 < dn g * dn (prec + e)) by nia.
  nia.
Qed.

Lemma pow2_emax : 2 ^ emax = 2 ^ prec * 2 ^ (emax - prec).
Proof. rewrite <- Z.pow_add_r by (unfold emax, prec; lia). reflexivity. Qed.

(** Below the overflow threshold [round] returns a finite value. *)
Lemma round_finite s n d :
  0 < n -> 0 < d ->
  2 * n < (2 ^ (prec + 1) - 1) * 2 ^ (emax - prec) * d ->
  exists m e,
    round s n d = Finite (if s then - m else m) e /\
    0 <= m < 2 ^ prec /\ emin <= e <= emax - prec /\
    (d <= n -> 2 ^ (prec - 1) <= m /\ 1 - prec <= e) /\
    (d <= n * 2 ^ (- emin) -> 0 < m).
Proof.
  intros Hn Hd Hb. unfold round.
  destruct (Z.eqb_spec n 0) as [?|_]; [lia|].
  destruct (mag_spec n d Hn Hd) as [L U].
  pose proof (round_mantissa_upper n d (fexp (mag n d)) Hn Hd) as Hup.
  pose proof (round_mantissa_normal n d Hn Hd) as Hnorm.
  pose proof (round_mantissa_bounds n d (fexp (mag n d))) as Hbd.
  pose proof (round_mantissa_ge n d (fexp (mag n d)) 0) as H0.
  set (g := mag n d) in *. set (e := fexp g) in *.
  set (m := round_mantissa n d e) in *.
  pose proof (up_pos e). pose proof (dn_pos e).
  assert (Hm0 : 0 <= m) by (apply H0; nia).
  assert (Hm1 : m <= 2 ^ prec) by (apply Hup; unfold e, fexp; lia).
  assert (P971 : 0 < 2 ^ (emax - prec)) by (apply Z.pow_pos_nonneg; unfold emax, prec; lia).
  assert (Hg : g <= emax).
  { destruct (Z.le_gt_cases g emax) as [?|C]; [assumption|exfalso].
    destruct (up_dn_nonneg (g - 1)) as [E1 E2]; [unfold emax in C; lia|].
    rewrite E1, E2 in L.
    assert (2 ^ emax <= 2 ^ (g - 1)) by (apply Z.pow_le_mono_r; lia).
    rewrite pow2_emax in *. change (2 ^ (prec + 1)) with (2 * 2 ^ prec) in Hb.
    set (P := 2 ^ (emax - prec)) in *. change (2 ^ prec) with 9007199254740992 in *.
    nia. }
  assert (He : emin <= e <= emax - prec) by (unfold e, fexp, emin, emax, prec in *; lia).
  assert (Hcarry : e = emax - prec -> m < 2 ^ prec).
  { intros Ee. specialize (Hbd ltac:(lia) Hd). cbv zeta in Hbd.
    fold m in Hbd.
    destruct (up_dn_nonneg e) as [E1 E2]; [rewrite Ee; unfold emax, prec; lia|].
    rewrite E1, E2, Ee in Hbd.
    change (2 ^ (prec + 1)) with (2 * 2 ^ prec) in Hb.
    set (P := 2 ^ (emax - prec)) in *. change (2 ^ prec) with 9007199254740992 in *.
    nia. }
  assert (Hge : d <= n -> 2 ^ (prec - 1) <= m /\ 1 - prec <= e).
  { intros Hdn.
    assert (1 <= g).
    { destruct (Z.le_gt_cases 1 g) as [?|C]; [assumption|exfalso].
      destruct (up_dn_nonpos g) as [E1 E2]; [lia|].
      rewrite E1 in U. pose proof (dn_pos g). nia. }
    assert (Ee : e = g - prec) by (unfold e, fexp, emin, emax, prec; lia).
    split; [|lia]. unfold m. rewrite Ee. apply Hnorm.
    unfold emin, emax, prec; lia. }
  assert (Hpos : d <= n * 2 ^ (- emin) -> 0 < m).
  { intros Hdn.
    destruct (Z.le_gt_cases emin (g - prec)) as [C|C].
    - assert (Ee : e = g - prec) by (unfold e, fexp; lia).
      specialize (Hnorm C). rewrite <- Ee in Hnorm. fold m in Hnorm.
      change (2 ^ (prec - 1)) with 4503599627370496 in Hnorm. lia.
    - assert (Ee : e = emin) by (unfold e, fexp; lia).
      assert (1 <= m); [|lia].
      apply round_mantissa_ge; [lia|lia|].
      rewrite Ee. destruct (up_dn_nonpos emin) as [E1 E2]; [unfold emin, emax, prec; lia|].
      rewrite E1, E2. lia. }
  destruct (Z.eqb_spec m (2 ^ prec)) as [Em|Nm].
  - assert (e + 1 <= emax - prec) by (specialize (Hcarry); lia).
    destruct (Z.ltb_spec (emax - prec) (e + 1)); [lia|].
    exists (2 ^ (prec - 1)), (e + 1). split; [reflexivity|].
    change (2 ^ (prec - 1)) with 4503599627370496 in *.
    change (2 ^ prec) with 9007199254740992 in *.
    split; [lia|]. split; [lia|]. split; [|lia].
    intros Hdn. specialize (Hge Hdn). lia.
  - destruct (Z.ltb_spec (emax - prec) e); [lia|].
    exists m, e. split; [reflexivity|]. split; [lia|]. split; [lia|]. split; assumption.
Qed.

Lemma int_bound_twice :
  2 * int_bound = (2 ^ (prec + 1) - 1) * 2 ^ (emax - prec).
Proof. reflexivity. Qed.

(** [float(a)] of a positive integer below the overflow threshold is
    a normal number of value at least one. *)
Lemma of_int_pos a :
  0 < a < int_bound ->
  exists m e,
    of_int a = Ok (Finite m e) /\
    2 ^ (prec - 1) <= m < 2 ^ prec /\ 1 - prec <= e <= emax - prec.
Proof.
  intros [Ha Hb]. unfold of_int.
  destruct (Z.ltb_spec a 0); [lia|]. rewrite Z.abs_eq by lia.
  destruct (round_finite false a 1) as (m & e & E & Hm & He & Hge & _); [lia|lia| |].
  { pose proof int_bound_twice. lia. }
  rewrite E. exists m, e. specialize (Hge ltac:(lia)). repeat split; lia.
Qed.

(** [float(a)] is exact for a positive integer below [2^prec]. *)
Lemma of_int_small a :
  0 < a < 2 ^ prec ->
  exists e, e <= 0 /\ of_int a = Ok (Finite (a * dn e) e).
Proof.
  intros [Ha Hb]. unfold of_int.
  destruct (Z.ltb_spec a 0); [lia|]. rewrite Z.abs_eq by lia.
  unfold round. destruct (Z.eqb_spec a 0); [lia|].
  destruct (mag_spec a 1) as [L U]; [lia|lia|].
  set (g := mag a 1) in *.
  assert (Hg1 : 1 <= g).
  { destruct (Z.le_gt_cases 1 g) as [?|C]; [assumption|exfalso].
    destruct (up_dn_nonpos g) as [E1 E2]; [lia|].
    rewrite E1 in U. pose proof (dn_pos g). nia. }
  assert (Hg2 : g <= prec).
  { destruct (Z.le_gt_cases g prec) as [?|C]; [assumption|exfalso].
    destruct (up_dn_nonneg (g - 1)) as [E1 E2]; [lia|].
    rewrite E1, E2 in L.
    assert (2 ^ prec <= 2 ^ (g - 1)) by (apply Z.pow_le_mono_r; lia).
    lia. }
  assert (Ee : fexp g = g - prec) by (unfold fexp, emin, emax, prec in *; lia).
  rewrite Ee. set (e := g - prec).
  destruct (up_dn_nonpos e) as [E1 E2]; [unfold e; lia|].
  assert (Em : round_mantissa a 1 e = a * dn e).
  { unfold round_mantissa. rewrite E1. change (1 * 1) with 1.
    rewrite Z.div_1_r, Z.mod_1_r. reflexivity. }
  rewrite Em.
  assert (a * dn e < 2 ^ prec).
  { pose proof (up_dn_add g (- e)) as E.
    replace (g + - e) with prec in E by (unfold e; lia).
    destruct (up_dn_nonneg g) as [E3 E4]; [lia|].
    destruct (up_dn_nonneg prec) as [E5 E6]; [unfold prec; lia|].
    destruct (up_dn_nonneg (- e)) as [E7 E8]; [unfold e; lia|].
    rewrite E2. rewrite E3, E4, E5, E6, E7, E8 in *.
    assert (0 < 2 ^ (- e)) by (apply Z.pow_pos_nonneg; unfold e; lia).
    nia. }
  destruct (Z.eqb_spec (a * dn e) (2 ^ prec)); [lia|].
  destruct (Z.ltb_spec (emax - prec) e); [unfold e, emax, prec in *; lia|].
  exists e. split; [unfold e; lia|reflexivity].
Qed.

Lemma ceil_div_unique M D c :
  0 < D -> (c - 1) * D < M <= c * D -> - ((- M) `div` D) = c.
Proof.
  intros HD [H1 H2].
  rewrite <- (Z.div_unique (- M) D (- c) (c * D - M)); lia.
Qed.

End FloatFacts.

Lemma ceil_div_spec m br :
  0 < br -> (ceil_div m br - 1) * br < m <= ceil_div m br * br.
Proof.
  intros Hb. unfold ceil_div.
  pose proof (Z.div_mod (- m) br ltac:(lia)).
  pose proof (Z.mod_pos_bound (- m) br Hb). nia.
Qed.

Section DivCeil.
Import Float FloatFacts.

(** A normal number of exponent at least [1 - prec] lies between one
    and the largest finite value. *)
Lemma normal_value_bounds m e :
  2 ^ (prec - 1) <= m < 2 ^ prec -> 1 - prec <= e <= emax - prec ->
  dn e <= m * up e /\ m * up e <= (2 ^ prec - 1) * 2 ^ (emax - prec) * dn e.
Proof.
  intros Hm He.
  assert (HP : 0 < 2 ^ (emax - prec)) by (apply Z.pow_pos_nonneg; unfold emax, prec; lia).
  set (P := 2 ^ (emax - prec)) in *.
  change (2 ^ (prec - 1)) with 4503599627370496 in *.
  change (2 ^ prec) with 9007199254740992 in *.
  destruct (Z.le_ge_cases 0 e) as [C|C].
  - destruct (up_dn_nonneg e C) as [-> ->].
    assert (2 ^ e <= P) by (apply Z.pow_le_mono_r; lia).
    assert (0 < 2 ^ e) by (apply Z.pow_pos_nonneg; lia). nia.
  - destruct (up_dn_nonpos e C) as [-> ->].
    assert (2 ^ (- e) <= 2 ^ (prec - 1))
      by (apply Z.pow_le_mono_r; unfold prec in *; lia).
    assert (0 < 2 ^ (- e)) by (apply Z.pow_pos_nonneg; lia).
    change (2 ^ (prec - 1)) with 4503599627370496 in *. nia.
Qed.

(** [div_ceil] returns on positive integers that convert to [float],
    and counts at least one block. *)
Lemma div_ceil_total a b :
  0 < a < int_bound -> 0 < b < int_bound ->
  exists k, div_ceil (a, b) = Ok k /\ 1 <= k.
Proof.
  intros Ha Hb. unfold div_ceil. simpl fst. simpl snd.
  destruct (of_int_pos a Ha) as (ma & ea & -> & Hma & Hea).
  destruct (of_int_pos b Hb) as (mb & eb & -> & Hmb & Heb).
  destruct (normal_value_bounds ma ea Hma Hea) as [A1 A2].
  destruct (normal_value_bounds mb eb Hmb Heb) as [B1 B2].
  change (2 ^ (prec - 1)) with 4503599627370496 in *.
  change (2 ^ prec) with 9007199254740992 in *.
  simpl. destruct (Z.eqb_spec mb 0); [lia|].
  destruct (Z.ltb_spec ma 0), (Z.ltb_spec mb 0); try lia.
  rewrite !Z.abs_eq by lia. simpl xorb.
  set (k := ea - eb).
  pose proof (up_pos k). pose proof (dn_pos k).
  pose proof (up_pos ea). pose proof (dn_pos ea).
  pose proof (up_pos eb). pose proof (dn_pos eb).
  pose proof (up_dn_add k eb) as E.
  replace (k + eb) with ea in E by (unfold k; lia).
  assert (HP : 0 < 2 ^ (emax - prec)) by (apply Z.pow_pos_nonneg; unfold emax, prec; lia).
  set (P := 2 ^ (emax - prec)) in *.
  assert (Hc : 0 < dn ea * up eb) by nia.
  destruct (round_finite false (ma * up k) (mb * dn k))
    as (m & e & -> & _ & _ & _ & Hpos); [nia|nia| |].
  - change (2 ^ (prec + 1)) with 18014398509481984. fold P.
    assert (ma * up k * (dn ea * up eb)
            <= 9007199254740991 * P * (mb * dn k) * (dn ea * up eb)).
    { replace (ma * up k * (dn ea * up eb)) with (ma * (dn ea * (up k * up eb))) by lia.
      rewrite <- E.
      assert (ma * (up ea * (dn k * dn eb))
              <= 9007199254740991 * P * dn ea * (dn k * dn eb)) by nia.
      assert (9007199254740991 * P * dn ea * dn k * dn eb
              <= 9007199254740991 * P * dn ea * dn k * (mb * up eb)).
      { apply Z.mul_le_mono_nonneg_l; [|assumption]. nia. }
      lia. }
    assert (ma * up k <= 9007199254740991 * P * (mb * dn k)) by nia.
    assert (0 < P * (mb * dn k)) by nia.
    lia.
  - simpl. eexists. split; [reflexivity|].
    assert (Hm : 0 < m).
    { apply Hpos.
      assert (9007199254740991 * P <= 2 ^ (- emin)).
      { assert (9007199254740992 * P = 2 ^ emax) by (rewrite pow2_emax; reflexivity).
        assert (2 ^ emax <= 2 ^ (- emin)) by (apply Z.pow_le_mono_r; unfold emin, emax, prec; lia).
        lia. }
      assert (mb * dn k * (dn ea * up eb)
              <= 9007199254740991 * P * (ma * up k) * (dn ea * up eb)).
      { replace (9007199254740991 * P * (ma * up k) * (dn ea * up eb))
          with (9007199254740991 * P * ma * (dn ea * (up k * up eb))) by lia.
        rewrite <- E.
        assert (mb * up eb * (dn k * dn ea)
                <= 9007199254740991 * P * dn eb * (dn k * dn ea)).
        { apply Z.mul_le_mono_nonneg_r; [nia|assumption]. }
        assert (9007199254740991 * P * dn k * dn eb * dn ea
                <= 9007199254740991 * P * dn k * dn eb * (ma * up ea)).
        { apply Z.mul_le_mono_nonneg_l; [|assumption]. nia. }
        lia. }
      assert (mb * dn k <= 9007199254740991 * P * (ma * up k)) by nia.
      assert (0 < ma * up k) by nia.
      nia. }
    pose proof (up_pos e). pose proof (dn_pos e) as Hde.
    pose proof (Z.div_mod (- (m * up e)) (dn e) ltac:(lia)).
    pose proof (Z.mod_pos_bound (- (m * up e)) (dn e) Hde).
    nia.
Qed.

(** A dimension divided by itself counts one block. *)
Lemma div_ceil_same n : 0 < n < int_bound -> div_ceil (n, n) = Ok 1.
Proof.
  intros Hn. unfold div_ceil. simpl fst. simpl snd.
  destruct (of_int_pos n Hn) as (m & e & -> & Hm & He).
  change (2 ^ (prec - 1)) with 4503599627370496 in *.
  simpl. destruct (Z.eqb_spec m 0); [lia|].
  destruct (Z.ltb_spec m 0); [lia|].
  rewrite Z.abs_eq by lia. simpl xorb.
  replace (e - e) with 0 by lia. change (up 0) with 1. change (dn 0) with 1.
  rewrite (round_ext false (m * 1) (m * 1) 1 1) by lia.
  reflexivity.
Qed.

Lemma int_ceil_round a b :
  0 < a < 2 ^ prec -> 0 < b < 2 ^ prec ->
  int_ceil (round false a b) = Ok (ceil_div a b).
Proof.
  intros Ha Hb. destruct (ceil_div_spec a b) as [C1 C2]; [lia|].
  set (c := ceil_div a b) in *.
  unfold round. destruct (Z.eqb_spec a 0); [lia|].
  destruct (mag_spec a b) as [L U]; [lia|lia|].
  pose proof (round_mantissa_normal a b) as Hnorm.
  set (g := mag a b) in *.
  change (2 ^ prec) with 9007199254740992 in *.
  assert (Hg1 : g <= prec).
  { destruct (Z.le_gt_cases g prec) as [?|C]; [assumption|exfalso].
    destruct (up_dn_nonneg (g - 1)) as [E1 E2]; [unfold prec in C; lia|].
    rewrite E1, E2 in L.
    assert (2 ^ prec <= 2 ^ (g - 1)) by (apply Z.pow_le_mono_r; lia).
    change (2 ^ prec) with 9007199254740992 in *. nia. }
  assert (Hg2 : - prec < g).
  { destruct (Z.lt_ge_cases (- prec) g) as [?|C]; [assumption|exfalso].
    destruct (up_dn_nonpos g) as [E1 E2]; [unfold prec in C; lia|].
    rewrite E1, E2 in U.
    assert (2 ^ prec <= 2 ^ (- g)) by (apply Z.pow_le_mono_r; lia).
    change (2 ^ prec) with 9007199254740992 in *. nia. }
  assert (Ee : fexp g = g - prec) by (unfold fexp, emin, emax, prec in *; lia).
  rewrite Ee. set (e := g - prec) in *.
  specialize (Hnorm ltac:(lia) ltac:(lia) ltac:(unfold emin, emax, prec in *; lia)).
  pose proof (round_mantissa_bounds a b e ltac:(lia) ltac:(lia)) as Hbd.
  pose proof (round_mantissa_le a b e (c * dn e) ltac:(lia) ltac:(lia)) as Hle.
  pose proof (round_mantissa_ge a b e ((c - 1) * dn e) ltac:(lia) ltac:(lia)) as Hge.
  cbv zeta in Hbd. set (m := round_mantissa a b e) in *.
  destruct (up_dn_nonpos e) as [E1 E2]; [unfold e; lia|].
  pose proof (dn_pos e) as HS. set (S := dn e) in *. rewrite E1 in *.
  change (2 ^ (prec - 1)) with 4503599627370496 in *.
  specialize (Hle ltac:(nia)). specialize (Hge ltac:(nia)).
  assert (Hlt : (c - 1) * S < m).
  { destruct (Z.lt_ge_cases ((c - 1) * S) m) as [?|C]; [assumption|exfalso].
    assert (Em : m = (c - 1) * S) by lia.
    assert (0 < c - 1) by nia.
    assert (2 * S * (a - (c - 1) * b) <= b) by nia.
    assert (2 * S <= b) by nia.
    assert (2 * m <= (c - 1) * b) by nia.
    lia. }
  destruct (Z.eqb_spec m 9007199254740992) as [Em|Nm].
  - destruct (Z.ltb_spec (emax - prec) (e + 1)); [unfold e, emax, prec in *; lia|].
    simpl. f_equal. apply ceil_div_unique; [apply dn_pos|].
    pose proof (up_dn_add e 1) as E.
    change (dn 1) with 1 in E. change (up 1) with 2 in E. rewrite E1 in E.
    fold S in E. pose proof (dn_pos (e + 1)). pose proof (up_pos (e + 1)).
    nia.
  - destruct (Z.ltb_spec (emax - prec) e); [unfold e, emax, prec in *; lia|].
    simpl. f_equal. rewrite E1. fold S. apply ceil_div_unique; lia.
Qed.

(** Below [2^prec] the block planner's quotient is the exact ceiling. *)
Lemma div_ceil_exact a b :
  0 < a < 2 ^ prec -> 0 < b < 2 ^ prec -> div_ceil (a, b) = Ok (ceil_div a b).
Proof.
  intros Ha Hb. unfold div_ceil. simpl fst. simpl snd.
  destruct (of_int_small a Ha) as (ea & Hea & ->).
  destruct (of_int_small b Hb) as (eb & Heb & ->).
  pose proof (dn_pos ea). pose proof (dn_pos eb).
  simpl. destruct (Z.eqb_spec (b * dn eb) 0); [nia|].
  destruct (Z.ltb_spec (a * dn ea) 0), (Z.ltb_spec (b * dn eb) 0); try nia.
  rewrite !Z.abs_eq by nia. simpl xorb.
  set (k := ea - eb).
  pose proof (up_pos k). pose proof (dn_pos k).
  rewrite (round_ext false _ _ a b); [apply int_ceil_round; assumption|nia|nia|lia|lia|].
  pose proof (up_dn_add k eb) as E.
  replace (k + eb) with ea in E by (unfold k; lia).
  destruct (up_dn_nonpos ea Hea) as [E1 _].
  destruct (up_dn_nonpos eb Heb) as [E2 _].
  rewrite E1, E2 in E. nia.
Qed.

End DivCeil.

(** ** Dictionaries and block grids *)

Section Dicts.
Context {V : Type}.
Implicit Types (l : list (key * V)) (d : gmap key V).

Lemma dict_of_snoc l k v : dict_of (l ++ [(k, v)]) = <[k := v]> (dict_of l).
Proof. unfold dict_of. rewrite foldl_app. reflexivity. Qed.

Lemma dict_of_lookup_elem l k v : dict_of l !! k = Some v -> (k, v) ∈ l.
Proof.
  induction l as [|[k' v'] l IH] using rev_ind.
  - unfold dict_of. simpl. rewrite lookup_empty. discriminate.
  - rewrite dict_of_snoc, lookup_insert. case_decide as E.
    + intros [= <-]. subst k'. apply elem_of_app. right. apply list_elem_of_singleton.
      reflexivity.
    + intros H. apply elem_of_app. left. auto.
Qed.

(** A dictionary comprehension whose keys are pairwise distinct binds
    each key to the value of its own item. *)
Lemma dict_of_lookup_fmap {A} (h : A -> key * V) (xs : list A) k v :
  Inj (=) (=) (fun x => (h x).1) ->
  dict_of (h <$> xs) !! k = Some v <-> exists x, x ∈ xs /\ h x = (k, v).
Proof.
  intros Hf. induction xs as [|a xs IH] using rev_ind.
  - unfold dict_of. simpl. rewrite lookup_empty. split; [discriminate|].
    intros (x & Hx & _). apply elem_of_nil in Hx. destruct Hx.
  - rewrite fmap_app. simpl. destruct (h a) as [ka va] eqn:Ha.
    rewrite dict_of_snoc, lookup_insert. case_decide as E.
    + split.
      * intros [= <-]. exists a. split; [|congruence].
        apply elem_of_app. right. apply list_elem_of_singleton. reflexivity.
      * intros (x & _ & Hx). assert (x = a) as -> by (apply Hf; rewrite Hx, Ha; auto).
        congruence.
    + rewrite IH. split.
      * intros (x & Hx & Hk). exists x. split; [|auto].
        apply elem_of_app. auto.
      * intros (x & Hx & Hk). exists x. split; [|auto].
        apply elem_of_app in Hx as [Hx|Hx]; [assumption|].
        apply list_elem_of_singleton in Hx. subst x. congruence.
Qed.

Lemma update_lookup_new d other k v :
  other !! k = Some v -> update d other !! k = Some v.
Proof. intros H. unfold update. apply lookup_union_Some_l. assumption. Qed.

Lemma update_lookup_old d other k :
  other !! k = None -> update d other !! k = d !! k.
Proof. intros H. unfold update. apply lookup_union_r. assumption. Qed.

Lemma update_lookup_Some d other k v :
  update d other !! k = Some v -> other !! k = Some v \/ d !! k = Some v.
Proof.
  unfold update. intros H. apply lookup_union_Some_raw in H. tauto.
Qed.

End Dicts.

Lemma xrange_elem i n : i ∈ xrange n <-> 0 <= i < n.
Proof. unfold xrange. rewrite elem_of_seqZ. lia. Qed.

(** The block grid of [nblocks] row blocks and one column block. *)
Lemma product_rows nblocks :
  product (xrange <$> [nblocks; 1]) = (fun i => [i; 0]) <$> xrange nblocks.
Proof.
  change (xrange <$> [nblocks; 1]) with [xrange nblocks; [0]].
  induction (xrange nblocks) as [|i l IH]; [reflexivity|].
  cbn. cbn in IH. rewrite IH. reflexivity.
Qed.


Lemma dict_of_singleton {V} (k : key) (v : V) : dict_of [(k, v)] = {[k := v]}.
Proof. reflexivity. Qed.

(** ** The dictionaries of [qr] on a grid of row blocks *)

Section StageLookups.
Variables (prefix data_name : string) (nblocks n : Z).

Lemma top_lookup func output args k t :
  da.top func output args [nblocks; 1] !! k = Some t <->
  exists i, 0 <= i < nblocks /\ k = (output, [i; 0]) /\
            t = (func, (fun a => Key (a, [i; 0])) <$> args).
Proof.
  unfold da.top. rewrite product_rows, <- list_fmap_compose.
  rewrite dict_of_lookup_fmap by (intros i j [= ->]; reflexivity).
  setoid_rewrite xrange_elem. simpl.
  split; [intros (i & ? & [= <- <-])|intros (i & ? & -> & ->)]; exists i; auto.
Qed.

Lemma dsk_qr_st1_lookup k t :
  dsk_qr_st1 prefix data_name [nblocks; 1] !! k = Some t <->
  exists i, 0 <= i < nblocks /\ k = (name_qr_st1 prefix, [i; 0]) /\
            t = (np_linalg_qr, [Key (data_name, [i; 0])]).
Proof. apply top_lookup. Qed.

Lemma dsk_q_st1_lookup k t :
  dsk_q_st1 prefix nblocks !! k = Some t <->
  exists i, 0 <= i < nblocks /\ k = (name_q_st1 prefix, [i; 0]) /\
            t = (operator_getitem, [Key (name_qr_st1 prefix, [i; 0]); Int 0]).
Proof.
  unfold dsk_q_st1.
  rewrite dict_of_lookup_fmap by (intros i j [= ->]; reflexivity).
  setoid_rewrite xrange_elem.
  split; [intros (i & ? & [= <- <-])|intros (i & ? & -> & ->)]; exists i; auto.
Qed.

Lemma dsk_r_st1_lookup k t :
  dsk_r_st1 prefix nblocks !! k = Some t <->
  exists i, 0 <= i < nblocks /\ k = (name_r_st1 prefix, [i; 0]) /\
            t = (operator_getitem, [Key (name_qr_st1 prefix, [i; 0]); Int 1]).
Proof.
  unfold dsk_r_st1.
  rewrite dict_of_lookup_fmap by (intros i j [= ->]; reflexivity).
  setoid_rewrite xrange_elem.
  split; [intros (i & ? & [= <- <-])|intros (i & ? & -> & ->)]; exists i; auto.
Qed.

Lemma dsk_q_st2_lookup k t :
  dsk_q_st2 prefix [nblocks; 1] n !! k = Some t <->
  exists i, 0 <= i < nblocks /\ k = (name_q_st2 prefix, [i; 0]) /\
            t = (operator_getitem,
                 [Key (name_q_st2_aux prefix, [0; 0]);
                  Slices [(i * n, (i + 1) * n); (0, n)]]).
Proof.
  unfold dsk_q_st2. rewrite product_rows, <- list_fmap_compose.
  rewrite dict_of_lookup_fmap by (intros i j [= ->]; reflexivity).
  setoid_rewrite xrange_elem. simpl.
  replace (0 * n) with 0 by lia. replace ((0 + 1) * n) with n by lia.
  split; [intros (i & ? & [= <- <-])|intros (i & ? & -> & ->)]; exists i; auto.
Qed.

Lemma dsk_q_st3_lookup k t :
  dsk_q_st3 prefix [nblocks; 1] !! k = Some t <->
  exists i, 0 <= i < nblocks /\ k = (name_q_st3 prefix, [i; 0]) /\
            t = (np_dot, [Key (name_q_st1 prefix, [i; 0]);
                          Key (name_q_st2 prefix, [i; 0])]).
Proof. apply top_lookup. Qed.

Lemma dsk_qr_st2_eq :
  dsk_qr_st2 prefix
  = {[ (name_qr_st2 prefix, [0; 0])
       := (np_linalg_qr, [Key (name_r_st1_stacked prefix, [0; 0])]) ]}.
Proof. reflexivity. Qed.

End StageLookups.

Lemma prefix_names_ne (prefix a b : string) :
  a <> b -> prefix +:+ a <> prefix +:+ b.
Proof. intros Hab E. apply Hab. eapply String.app_inj. exact E. Qed.

(** ** [qr] returns on every valid input *)

Lemma row_blocks_head m br : 0 < br <= m -> exists l, row_blocks m br = br :: l.
Proof.
  intros H. unfold row_blocks.
  assert (1 <= m `div` br) by (apply Z.div_le_lower_bound; lia).
  destruct (Z.to_nat (m `div` br)) as [|k] eqn:E; [lia|].
  simpl. eauto.
Qed.

Lemma check_valid data m n br :
  valid_input data m n br -> check data = Ok ([br; n], m, n).
Proof.
  intros [Hs Hb Hbr Hn _ _]. unfold check, da.ndim. rewrite Hs, Hb.
  destruct (row_blocks_head m br Hbr) as [l ->]. reflexivity.
Qed.

Lemma findnumblocks_valid m n br :
  0 < br <= m -> 0 < n -> m < Float.int_bound -> n < Float.int_bound ->
  exists nblocks,
    1 <= nblocks /\ _findnumblocks [m; n] [br; n] = Ok [nblocks; 1].
Proof.
  intros Hbr Hn Hm Hn'. unfold _findnumblocks. simpl.
  destruct (div_ceil_total m br) as (k & -> & Hk); [lia|lia|].
  rewrite div_ceil_same by lia. exists k. split; [assumption|reflexivity].
Qed.

Lemma axis_blocks_rows m br : br <> 0 -> da.axis_blocks m br = Ok (row_blocks m br).
Proof.
  intros H. unfold da.axis_blocks. destruct (Z.eqb_spec br 0); [lia|reflexivity].
Qed.

Lemma axis_blocks_single n : 0 < n -> da.axis_blocks n n = Ok [n].
Proof.
  intros H. unfold da.axis_blocks. destruct (Z.eqb_spec n 0); [lia|].
  rewrite Z.div_same, Z.mod_same by lia. reflexivity.
Qed.

Lemma blockdims_rows m n br :
  br <> 0 -> 0 < n ->
  da.blockdims_from_blockshape [m; n] [br; n] = Ok [row_blocks m br; [n]].
Proof.
  intros Hbr Hn. unfold da.blockdims_from_blockshape.
  change (zip [m; n] [br; n]) with [(m, br); (n, n)].
  cbn -[da.axis_blocks].
  rewrite (axis_blocks_single n), (axis_blocks_rows m br) by lia.
  reflexivity.
Qed.

Lemma blockdims_single n :
  0 < n -> da.blockdims_from_blockshape [n; n] [n; n] = Ok [[n]; [n]].
Proof.
  intros Hn. unfold da.blockdims_from_blockshape.
  change (zip [n; n] [n; n]) with [(n, n); (n, n)].
  cbn -[da.axis_blocks]. rewrite (axis_blocks_single n) by lia.
  reflexivity.
Qed.

(** On a valid input [qr] returns the two handles, built on the grid
    of [nblocks] row blocks and one column block that the block
    planner computes. *)
Lemma qr_valid data m n br name names :
  valid_input data m n br ->
  exists nblocks,
    1 <= nblocks /\
    _findnumblocks (da.shape data) [br; n] = Ok [nblocks; 1] /\
    qr data name names =
    (Ok ({| da.dask := dsk_q (prefix_of name names) (da.name data)
                             [nblocks; 1] nblocks n (da.dask data);
            da.name := name_q_st3 (prefix_of name names);
            da.shape := da.shape data;
            da.blockdims := da.blockdims data |},
         {| da.dask := dsk_r (prefix_of name names) (da.name data)
                             [nblocks; 1] nblocks (da.dask data);
            da.name := name_r_st2 (prefix_of name names);
            da.shape := [n; n];
            da.blockdims := [[n]; [n]] |}),
     (choose_prefix name names).2).
Proof.
  intros Hv. pose proof (check_valid _ _ _ _ Hv) as Hc.
  destruct Hv as [Hs Hb Hbr Hn Hm Hn'].
  destruct (findnumblocks_valid m n br Hbr Hn Hm Hn') as (nblocks & Hnb & Hf).
  exists nblocks. rewrite Hs. split; [assumption|]. split; [assumption|].
  unfold qr. rewrite Hc. unfold prefix_of.
  destruct (choose_prefix name names) as [prefix0 names'].
  unfold build. rewrite Hs, Hf. unfold da.mkArray.
  rewrite (blockdims_single n), (blockdims_rows m n br) by lia.
  rewrite Hb. reflexivity.
Qed.

(** ** [qr] on accepted inputs *)

Lemma check_shape data bs m n :
  check data = Ok (bs, m, n) -> da.shape data = [m; n].
Proof.
  unfold check, index, da.ndim. intros H.
  destruct (da.shape data) as [|m' [|n' [|x s]]]; simpl in H;
    try discriminate H.
  destruct (da.blockdims data) as [|bd0 [|bd1 rest]]; simpl in H;
    try discriminate H.
  destruct bd1 as [|bc [|y bd1]]; simpl in H; try discriminate H.
  destruct bd0 as [|br rows]; simpl in H; try discriminate H.
  injection H as _ <- <-. reflexivity.
Qed.

(** On an input that passes the validation with positive extents that
    convert to [float], [qr] returns the two handles, built on the
    grid that the block planner computes; the row blocks of the
    orthogonal handle are cut by the height of the first row block of
    the input. *)
Lemma qr_accepted data m n br name names :
  check data = Ok ([br; n], m, n) ->
  0 < br < Float.int_bound -> 0 < m < Float.int_bound ->
  0 < n < Float.int_bound ->
  exists nblocks,
    1 <= nblocks /\
    _findnumblocks (da.shape data) [br; n] = Ok [nblocks; 1] /\
    qr data name names =
    (Ok ({| da.dask := dsk_q (prefix_of name names) (da.name data)
                             [nblocks; 1] nblocks n (da.dask data);
            da.name := name_q_st3 (prefix_of name names);
            da.shape := da.shape data;
            da.blockdims := [row_blocks m br; [n]] |},
         {| da.dask := dsk_r (prefix_of name names) (da.name data)
                             [nblocks; 1] nblocks (da.dask data);
            da.name := name_r_st2 (prefix_of name names);
            da.shape := [n; n];
            da.blockdims := [[n]; [n]] |}),
     (choose_prefix name names).2).
Proof.
  intros Hc Hbr Hm Hn. pose proof (check_shape _ _ _ _ Hc) as Hs.
  assert (Hf : exists nblocks,
             1 <= nblocks /\ _findnumblocks [m; n] [br; n] = Ok [nblocks; 1]).
  { unfold _findnumblocks. simpl.
    destruct (div_ceil_total m br) as (k & -> & Hk); [lia|lia|].
    rewrite div_ceil_same by lia. exists k. split; [assumption|reflexivity]. }
  destruct Hf as (nblocks & Hnb & Hf).
  exists nblocks. rewrite Hs. split; [assumption|]. split; [assumption|].
  unfold qr. rewrite Hc. unfold prefix_of.
  destruct (choose_prefix name names) as [prefix0 names'].
  unfold build. rewrite Hs, Hf. unfold da.mkArray.
  rewrite (blockdims_single n), (blockdims_rows m n br) by lia.
  reflexivity.
Qed.

(** ** The row blocks of a valid input *)

(** The input has [ceil(m / br)] row blocks. *)
Lemma row_blocks_length m br :
  0 < br -> 0 <= m -> length (row_blocks m br) = Z.to_nat (ceil_div m br).
Proof.
  intros Hbr Hm. unfold row_blocks, ceil_div.
  pose proof (Z.div_mod m br ltac:(lia)) as E.
  pose proof (Z.mod_pos_bound m br Hbr) as R.
  assert (0 <= m `div` br) by (apply Z.div_pos; lia).
  rewrite length_app, length_replicate.
  destruct (Z.eqb_spec (m `mod` br) 0) as [Z0|NZ].
  - rewrite (FloatFacts.ceil_div_unique m br (m `div` br)) by nia. simpl. lia.
  - rewrite (FloatFacts.ceil_div_unique m br (m `div` br + 1)) by nia. simpl. lia.
Qed.

(** Below [2^53] rows the block planner counts the row blocks of the
    input exactly. *)
Lemma numblocks_exact data m n br :
  valid_input data m n br -> m < 2 ^ 53 ->
  _findnumblocks (da.shape data) [br; n] = Ok [ceil_div m br; 1].
Proof.
  intros [Hs Hb Hbr Hn Hm Hn'] Hsmall. rewrite Hs.
  change (2 ^ 53) with 9007199254740992 in Hsmall.
  unfold _findnumblocks. simpl.
  rewrite (div_ceil_exact m br)
    by (change (2 ^ Float.prec) with 9007199254740992; lia).
  rewrite (div_ceil_same n) by lia. reflexivity.
Qed.

(** On a valid input of fewer than [2^53] rows the grid of the two
    handles has one row per row block of the input. *)
Lemma qr_valid_blocks data m n br name names :
  valid_input data m n br -> m < 2 ^ 53 ->
  exists bd0,
    da.blockdims data !! 0%nat = Some bd0 /\
    1 <= Z.of_nat (length bd0) /\
    _findnumblocks (da.shape data) [br; n] = Ok [Z.of_nat (length bd0); 1] /\
    new_tasks data name names
    = created (prefix_of name names) (da.name data)
              [Z.of_nat (length bd0); 1] (Z.of_nat (length bd0)) n /\
    qr data name names =
    (Ok ({| da.dask := dsk_q (prefix_of name names) (da.name data)
                             [Z.of_nat (length bd0); 1]
                             (Z.of_nat (length bd0)) n (da.dask data);
            da.name := name_q_st3 (prefix_of name names);
            da.shape := da.shape data;
            da.blockdims := da.blockdims data |},
         {| da.dask := dsk_r (prefix_of name names) (da.name data)
                             [Z.of_nat (length bd0); 1]
                             (Z.of_nat (length bd0)) (da.dask data);
            da.name := name_r_st2 (prefix_of name names);
            da.shape := [n; n];
            da.blockdims := [[n]; [n]] |}),
     (choose_prefix name names).2).
Proof.
  intros Hv Hm.
  pose proof (numblocks_exact data m n br Hv Hm) as Hf.
  pose proof (check_valid _ _ _ _ Hv) as Hc.
  destruct (qr_valid data m n br name names Hv) as (nblocks & Hnb & Hf' & Hq).
  rewrite Hf in Hf'. injection Hf' as <-.
  pose proof (valid_br _ _ _ _ Hv) as Hbr.
  pose proof (row_blocks_length m br ltac:(lia) ltac:(lia)) as Hl.
  exists (row_blocks m br).
  split; [rewrite (valid_blockdims _ _ _ _ Hv); reflexivity|].
  rewrite Hl, Z2Nat.id by lia.
  split; [exact Hnb|]. split; [exact Hf|]. split; [|exact Hq].
  unfold new_tasks. rewrite Hc, Hf. reflexivity.
Qed.

(** ** Every dictionary holds the keys of one name *)

Lemma named_dict_of {A} name (f : A -> list Z) (g : A -> task) (xs : list A) :
  named name (dict_of ((fun x => ((name, f x), g x)) <$> xs)).
Proof.
  intros k t H. apply dict_of_lookup_elem in H.
  apply list_elem_of_fmap in H as (x & [= -> _] & _). reflexivity.
Qed.

Lemma named_singleton name idx (t : task) :
  named name (dict_of [((name, idx), t)]).
Proof.
  rewrite dict_of_singleton. intros k t' H.
  apply lookup_singleton_Some in H as [<- _]. reflexivity.
Qed.

Lemma named_other name d k : named name d -> k.1 <> name -> d !! k = None.
Proof.
  intros Hd Hk. destruct (d !! k) as [t|] eqn:E; [|reflexivity].
  exfalso. apply Hk. eapply Hd. exact E.
Qed.

Lemma top_named func output args numblocks :
  named output (da.top func output args numblocks).
Proof. unfold da.top. apply (named_dict_of output (fun ij => ij)). Qed.

Section Names.
Variables (prefix data_name : string) (numblocks : list Z) (nblocks n : Z).

Lemma dsk_qr_st1_named :
  named (name_qr_st1 prefix) (dsk_qr_st1 prefix data_name numblocks).
Proof. apply top_named. Qed.

Lemma dsk_q_st1_named : named (name_q_st1 prefix) (dsk_q_st1 prefix nblocks).
Proof. apply (named_dict_of _ (fun i => [i; 0])). Qed.

Lemma dsk_r_st1_named : named (name_r_st1 prefix) (dsk_r_st1 prefix nblocks).
Proof. apply (named_dict_of _ (fun i => [i; 0])). Qed.

Lemma dsk_r_st1_stacked_named :
  named (name_r_st1_stacked prefix) (dsk_r_st1_stacked prefix nblocks).
Proof. apply named_singleton. Qed.

Lemma dsk_qr_st2_named : named (name_qr_st2 prefix) (dsk_qr_st2 prefix).
Proof. apply top_named. Qed.

Lemma dsk_q_st2_aux_named : named (name_q_st2_aux prefix) (dsk_q_st2_aux prefix).
Proof. apply named_singleton. Qed.

Lemma dsk_q_st2_named :
  named (name_q_st2 prefix) (dsk_q_st2 prefix numblocks n).
Proof. unfold dsk_q_st2. apply (named_dict_of _ (fun ij => ij)). Qed.

Lemma dsk_r_st2_named : named (name_r_st2 prefix) (dsk_r_st2 prefix).
Proof. apply named_singleton. Qed.

Lemma dsk_q_st3_named : named (name_q_st3 prefix) (dsk_q_st3 prefix numblocks).
Proof. apply top_named. Qed.

End Names.

Create HintDb tsqr_names.
#[export] Hint Resolve dsk_qr_st1_named dsk_q_st1_named dsk_r_st1_named
  dsk_r_st1_stacked_named dsk_qr_st2_named dsk_q_st2_aux_named
  dsk_q_st2_named dsk_r_st2_named dsk_q_st3_named : tsqr_names.

(** Skip a dictionary of another name in a chain of updates. *)
Ltac other_name :=
  eapply named_other; [solve [auto with tsqr_names]|];
  simpl; unfold name_qr_st1, name_q_st1, name_r_st1, name_r_st1_stacked,
    name_qr_st2, name_q_st2_aux, name_q_st2, name_r_st2, name_q_st3;
  apply prefix_names_ne; discriminate.

Ltac skip_updates := repeat (rewrite update_lookup_old by other_name).

(** ** Names and prefixes *)

Lemma chars_append s t : chars (s +:+ t) = chars s ++ chars t.
Proof. induction s as [|c s IH]; simpl; [reflexivity|]. rewrite IH. reflexivity. Qed.

Lemma chars_inj s t : chars s = chars t -> s = t.
Proof.
  revert t. induction s as [|c s IH]; intros [|d t] E; simpl in E;
    try discriminate E; [reflexivity|].
  injection E as -> E. f_equal. apply IH. exact E.
Qed.

Lemma append_inv_tail s1 s2 t : s1 +:+ t = s2 +:+ t -> s1 = s2.
Proof.
  intros E. apply chars_inj.
  apply (f_equal chars) in E. rewrite !chars_append in E.
  eapply app_inv_tail. exact E.
Qed.

Lemma append_assoc s t u : (s +:+ t) +:+ u = s +:+ (t +:+ u).
Proof.
  induction s as [|c s IH]; [reflexivity|].
  change (String c ((s +:+ t) +:+ u) = String c (s +:+ (t +:+ u))).
  rewrite IH. reflexivity.
Qed.

(** No suffix of a task family ends in an underscore followed by
    another suffix: equal names come from equal caller names. *)
Lemma suffix_clash a b s1 s2 :
  a ∈ suffixes -> b ∈ suffixes ->
  (s1 +:+ "_") +:+ a = (s2 +:+ "_") +:+ b -> s1 = s2.
Proof.
  intros Ha Hb E. apply chars_inj.
  apply (f_equal chars) in E. rewrite !chars_append in E.
  apply (f_equal (@rev ascii)) in E. rewrite !rev_app_distr in E.
  rewrite <- (rev_involutive (chars s1)).
  rewrite <- (rev_involutive (chars s2)).
  f_equal. revert E.
  generalize (rev (chars s1)) (rev (chars s2)).
  intros l1 l2 E. unfold suffixes in Ha, Hb.
  repeat (apply elem_of_cons in Ha as [->|Ha]);
    try (apply elem_of_nil in Ha; destruct Ha);
    repeat (apply elem_of_cons in Hb as [->|Hb]);
    try (apply elem_of_nil in Hb; destruct Hb);
    simpl in E;
    repeat (first [discriminate E | injection E as E]);
    exact E.
Qed.

(** Every key a call creates is named by the prefix and one of the
    nine suffixes. *)
Lemma created_key_name p data_name numblocks nblocks n k t :
  created p data_name numblocks nblocks n !! k = Some t ->
  exists a, a ∈ suffixes /\ k.1 = p +:+ a.
Proof.
  unfold created, stage1, stage2, stage3, assembly. intros H.
  repeat (apply update_lookup_Some in H as [H|H]);
    [ apply dsk_q_st3_named in H | apply dsk_q_st2_named in H
    | apply dsk_q_st2_aux_named in H | apply dsk_r_st2_named in H
    | apply dsk_qr_st2_named in H | apply dsk_r_st1_stacked_named in H
    | apply dsk_r_st1_named in H | apply dsk_q_st1_named in H
    | apply dsk_qr_st1_named in H ];
    rewrite H; eexists; (split; [|reflexivity]);
    unfold suffixes; set_solver.
Qed.

Lemma new_tasks_key_name data name names k t :
  new_tasks data name names !! k = Some t ->
  exists a, a ∈ suffixes /\ k.1 = prefix_of name names +:+ a.
Proof.
  unfold new_tasks. destruct (check data) as [[[bs m] n]|e].
  - destruct (_findnumblocks (da.shape data) bs) as [[|nblocks nbs]|e].
    + rewrite lookup_empty. discriminate.
    + apply created_key_name.
    + rewrite lookup_empty. discriminate.
  - rewrite lookup_empty. discriminate.
Qed.

Lemma prefix_of_named c s names :
  prefix_of (Some (String c s)) names = String c s +:+ "_".
Proof. reflexivity. Qed.

(** ** The name generator in a session *)

Lemma qr_names_le data name names : (names <= (qr data name names).2)%N.
Proof.
  unfold qr. destruct (check data) as [[[bs m] n]|e]; [|simpl; lia].
  destruct name as [[|c s]|]; simpl; lia.
Qed.

Lemma qr_names_draw data names :
  accepted data -> (qr data None names).2 = N.succ names.
Proof. intros [[[bs m] n] H]. unfold qr. rewrite H. reflexivity. Qed.

Lemma session_names_le calls : forall names j s res,
  session calls names !! j = Some (s, res) -> (names <= s)%N.
Proof.
  induction calls as [|[data name] calls IH]; intros names j s res H.
  - destruct j; discriminate H.
  - simpl in H. pose proof (qr_names_le data name names) as L.
    destruct (qr data name names) as [res0 names'] eqn:E.
    destruct j as [|j]; simpl in H.
    + injection H as <- _. lia.
    + apply IH in H. simpl in L. lia.
Qed.

Lemma qr_unnamed data name names :
  unnamed name -> qr data name names = qr data None names.
Proof. intros [->| ->]; reflexivity. Qed.

Lemma prefix_of_unnamed name names :
  unnamed name -> prefix_of name names = ("tsqr_" +:+ pretty names) +:+ "_".
Proof. intros [->| ->]; reflexivity. Qed.

Lemma new_tasks_unnamed data name names :
  unnamed name -> new_tasks data name names = new_tasks data None names.
Proof. intros [->| ->]; reflexivity. Qed.

Lemma session_names_lt calls : forall names i j d1 d2 nm1 nm2 s1 res1 s2 res2,
  (i < j)%nat ->
  calls !! i = Some (d1, nm1) -> unnamed nm1 -> accepted d1 ->
  calls !! j = Some (d2, nm2) ->
  session calls names !! i = Some (s1, res1) ->
  session calls names !! j = Some (s2, res2) ->
  (s1 < s2)%N.
Proof.
  induction calls as [|[data name] calls IH];
    intros names i j d1 d2 nm1 nm2 s1 res1 s2 res2 Hij Hi Hu Ha Hj Si Sj.
  - destruct i; discriminate Hi.
  - simpl in Si, Sj.
    destruct (qr data name names) as [res0 names'] eqn:E.
    destruct j as [|j]; [lia|]. simpl in Sj.
    destruct i as [|i]; simpl in Si.
    + injection Hi as -> ->. injection Si as <- _.
      pose proof (qr_names_draw d1 names Ha) as D.
      rewrite <- (qr_unnamed d1 nm1 names Hu), E in D. simpl in D.
      apply session_names_le in Sj. lia.
    + simpl in Hi, Hj. eapply (IH names' i j); eauto. lia.
Qed.

Lemma auto_prefix_inj s1 s2 : prefix_of None s1 = prefix_of None s2 -> s1 = s2.
Proof.
  unfold prefix_of. simpl. intros E. apply append_inv_tail in E.
  apply String.app_inj in E. apply (inj pretty) in E. exact E.
Qed.

Lemma session_lookup calls : forall names i d name st res,
  calls !! i = Some (d, name) ->
  session calls names !! i = Some (st, res) ->
  res = (qr d name st).1.
Proof.
  induction calls as [|[data name0] calls IH]; intros names i d name st res Hi Si.
  - destruct i; discriminate Hi.
  - simpl in Si. destruct (qr data name0 names) as [res0 names'] eqn:E.
    destruct i as [|i]; simpl in Hi, Si.
    + injection Hi as -> ->. injection Si as <- <-. rewrite E. reflexivity.
    + eapply IH; eauto.
Qed.

(** C9, as the code has it: calls with distinct non-empty explicit
    names create disjoint sets of task keys; in a session, two calls
    without a name of their own that pass the validation, whatever
    calls come between them, draw distinct prefixes from the generator
    and create disjoint sets of task keys; and every key that a call
    with a non-empty explicit name creates begins with that name and
    an underscore.  An empty name counts as no name:
    [name or next(names)] draws from the generator, the call returns
    what the unnamed call returns, advances the generator as it does,
    and every key it creates begins with the prefix it has drawn. *)
Theorem C9_namespaces :
  (forall data1 data2 s1 s2 names1 names2,
     s1 <> "" -> s2 <> "" -> s1 <> s2 ->
     dom (new_tasks data1 (Some s1) names1)
     ## dom (new_tasks data2 (Some s2) names2)) /\
  (forall calls names i j d1 d2 nm1 nm2 st1 st2,
     (i < j)%nat ->
     unnamed nm1 -> unnamed nm2 ->
     calls !! i = Some (d1, nm1) -> accepted d1 ->
     calls !! j = Some (d2, nm2) -> accepted d2 ->
     (session calls names).*1 !! i = Some st1 ->
     (session calls names).*1 !! j = Some st2 ->
     session calls names !! i = Some (st1, (qr d1 nm1 st1).1) /\
     session calls names !! j = Some (st2, (qr d2 nm2 st2).1) /\
     prefix_of nm1 st1 <> prefix_of nm2 st2 /\
     dom (new_tasks d1 nm1 st1) ## dom (new_tasks d2 nm2 st2)) /\
  (forall data s names k,
     s <> "" ->
     k ∈ dom (new_tasks data (Some s) names) ->
     exists a, a ∈ suffixes /\ k.1 = (s +:+ "_") +:+ a) /\
  (forall data names,
     qr data (Some "") names = qr data None names /\
     new_tasks data (Some "") names = new_tasks data None names /\
     prefix_of (Some "") names = ("tsqr_" +:+ pretty names) +:+ "_" /\
     (accepted data -> (qr data (Some "") names).2 = N.succ names) /\
     forall k, k ∈ dom (new_tasks data (Some "") names) ->
       exists a, a ∈ suffixes /\
                 k.1 = (("tsqr_" +:+ pretty names) +:+ "_") +:+ a).
Proof.
  split; [|split; [|split]].
  - intros data1 data2 s1 s2 names1 names2 N1 N2 Hne.
    apply elem_of_disjoint. intros k H1 H2.
    apply elem_of_dom in H1 as [t1 H1]. apply elem_of_dom in H2 as [t2 H2].
    apply new_tasks_key_name in H1 as (a & Ha & E1).
    apply new_tasks_key_name in H2 as (b & Hb & E2).
    destruct s1 as [|c1 s1]; [contradiction|].
    destruct s2 as [|c2 s2]; [contradiction|].
    rewrite prefix_of_named in E1, E2. rewrite E1 in E2.
    apply Hne. exact (suffix_clash a b _ _ Ha Hb E2).
  - intros calls names i j d1 d2 nm1 nm2 st1 st2 Hij U1 U2 Hi A1 Hj A2 Si Sj.
    rewrite list_lookup_fmap in Si, Sj.
    destruct (session calls names !! i) as [[st1' res1]|] eqn:Ei; [|discriminate Si].
    destruct (session calls names !! j) as [[st2' res2]|] eqn:Ej; [|discriminate Sj].
    simpl in Si, Sj. injection Si as ->. injection Sj as ->.
    pose proof (session_lookup calls names i d1 nm1 st1 res1 Hi Ei) as ->.
    pose proof (session_lookup calls names j d2 nm2 st2 res2 Hj Ej) as ->.
    pose proof (session_names_lt calls names i j d1 d2 nm1 nm2 st1 _ st2 _
                  Hij Hi U1 A1 Hj Ei Ej) as L.
    split; [reflexivity|]. split; [reflexivity|].
    rewrite (prefix_of_unnamed nm1 st1 U1), (prefix_of_unnamed nm2 st2 U2).
    split.
    + intros E. apply append_inv_tail in E. apply String.app_inj in E.
      apply (inj pretty) in E. lia.
    + apply elem_of_disjoint. intros k H1 H2.
      apply elem_of_dom in H1 as [t1 H1]. apply elem_of_dom in H2 as [t2 H2].
      apply new_tasks_key_name in H1 as (a & Ha & E1).
      apply new_tasks_key_name in H2 as (b & Hb & E2).
      rewrite (prefix_of_unnamed nm1 st1 U1) in E1.
      rewrite (prefix_of_unnamed nm2 st2 U2) in E2.
      rewrite E1 in E2. apply (suffix_clash a b _ _ Ha Hb) in E2.
      apply String.app_inj in E2. apply (inj pretty) in E2. lia.
  - intros data s names k Hs Hk. apply elem_of_dom in Hk as [t Hk].
    apply new_tasks_key_name in Hk as (a & Ha & E).
    destruct s as [|c s]; [contradiction|].
    rewrite prefix_of_named in E. eauto.
  - intros data names.
    split; [reflexivity|]. split; [reflexivity|]. split; [reflexivity|].
    split; [apply qr_names_draw|].
    intros k Hk. apply elem_of_dom in Hk as [t Hk].
    apply new_tasks_key_name in Hk as (a & Ha & E). eauto.
Qed.

Lemma C9_namespaces_witness :
  (dom (new_tasks scenario (Some "a") names_init)
   ## dom (new_tasks scenario (Some "b") names_init)) /\
  (session [(scenario, None); (vector, Some "z"); (scenario, Some "")]
           names_init
   !! 0%nat = Some (1%N, (qr scenario None 1%N).1) /\
   session [(scenario, None); (vector, Some "z"); (scenario, Some "")]
           names_init
   !! 2%nat = Some (2%N, (qr scenario (Some "") 2%N).1) /\
   prefix_of None 1%N <> prefix_of (Some "") 2%N /\
   dom (new_tasks scenario None 1%N)
   ## dom (new_tasks scenario (Some "") 2%N)) /\
  (exists a, a ∈ suffixes /\ "a_Q" = ("a" +:+ "_") +:+ a) /\
  (qr scenario (Some "") names_init = qr scenario None names_init /\
   new_tasks scenario (Some "") names_init
   = new_tasks scenario None names_init /\
   prefix_of (Some "") names_init = ("tsqr_" +:+ pretty names_init) +:+ "_" /\
   (accepted scenario -> (qr scenario (Some "") names_init).2
                         = N.succ names_init) /\
   forall k, k ∈ dom (new_tasks scenario (Some "") names_init) ->
     exists a, a ∈ suffixes /\
               k.1 = (("tsqr_" +:+ pretty names_init) +:+ "_") +:+ a).
Proof.
  destruct C9_namespaces as (H1 & H2 & H3 & H4).
  split; [apply H1; discriminate|]. split; [|split].
  - apply (H2 [(scenario, None); (vector, Some "z"); (scenario, Some "")]
              names_init 0%nat 2%nat scenario scenario None (Some "")).
    + lia.
    + left. reflexivity.
    + right. reflexivity.
    + reflexivity.
    + eexists. reflexivity.
    + reflexivity.
    + eexists. reflexivity.
    + vm_compute. reflexivity.
    + vm_compute. reflexivity.
  - apply (H3 scenario "a" names_init ("a_Q", [0; 0])); [discriminate|].
    apply elem_of_dom. eexists. vm_compute. reflexivity.
  - apply (H4 scenario names_init).
Defined.

(** C9 as stated fails for an empty explicit name: a call named [""]
    draws [tsqr_1] from the fresh generator, and the keys it creates
    are those of a later call named ["tsqr_1"]. *)
Lemma C9_counterexample :
  ("" : string) <> "tsqr_1" /\
  (qr scenario (Some "") names_init).2 = 2%N /\
  new_tasks scenario (Some "") names_init !! ("tsqr_1_Q", [0; 0])
  = Some (np_dot, [Key ("tsqr_1_Q_st1", [0; 0]); Key ("tsqr_1_Q_st2", [0; 0])]) /\
  new_tasks scenario (Some "tsqr_1") 2%N !! ("tsqr_1_Q", [0; 0])
  = Some (np_dot, [Key ("tsqr_1_Q_st1", [0; 0]); Key ("tsqr_1_Q_st2", [0; 0])]) /\
  ~ (dom (new_tasks scenario (Some "") names_init)
     ## dom (new_tasks scenario (Some "tsqr_1") 2%N)).
Proof.
  assert (E1 : new_tasks scenario (Some "") names_init !! ("tsqr_1_Q", [0; 0])
    = Some (np_dot, [Key ("tsqr_1_Q_st1", [0; 0]); Key ("tsqr_1_Q_st2", [0; 0])]))
    by (vm_compute; reflexivity).
  assert (E2 : new_tasks scenario (Some "tsqr_1") 2%N !! ("tsqr_1_Q", [0; 0])
    = Some (np_dot, [Key ("tsqr_1_Q_st1", [0; 0]); Key ("tsqr_1_Q_st2", [0; 0])]))
    by (vm_compute; reflexivity).
  split; [discriminate|]. split; [vm_compute; reflexivity|].
  split; [exact E1|]. split; [exact E2|].
  intros D. apply (proj1 (elem_of_disjoint _ _) D ("tsqr_1_Q", [0; 0]));
    apply elem_of_dom; eexists; eassumption.
Qed.

(** ** Rejection of malformed inputs *)

Lemma check_rejects data : shape_violation data -> check data = Raise ValueError.
Proof.
  intros [H|(bd1 & H1 & H2)]; unfold check.
  - rewrite bool_decide_eq_false_2 by assumption. reflexivity.
  - case_bool_decide; [|reflexivity].
    unfold index. rewrite H1. simpl.
    rewrite bool_decide_eq_false_2 by assumption. reflexivity.
Qed.

(** C2: an input whose number of dimensions is not two, or whose second
    axis is not cut in exactly one block (more than one block in
    particular), makes [qr] raise the validation error [ValueError];
    the error comes before any task dictionary is built: no graph is
    returned and the call creates no task. *)
Theorem C2_shape_violation_rejected data name names :
  shape_violation data ->
  qr data name names = (Raise ValueError, names) /\
  new_tasks data name names = ∅.
Proof.
  intros H. apply check_rejects in H.
  unfold qr, new_tasks. rewrite H. split; reflexivity.
Qed.

Lemma C2_shape_violation_rejected_witness :
  shape_violation two_columns /\
  qr two_columns None names_init = (Raise ValueError, names_init) /\
  new_tasks two_columns None names_init = ∅.
Proof.
  assert (H : shape_violation two_columns).
  { right. exists [2; 2]. split; [reflexivity|]. simpl. lia. }
  split; [exact H|]. apply (C2_shape_violation_rejected two_columns None names_init H).
Defined.

(** C10: a call that [qr] rejects for a shape violation leaves the name
    generator as it found it: the validation comes before the draw, so
    no prefix is consumed and a later unnamed call behaves, and is
    named, as if the failed call had not happened. *)
Theorem C10_rejection_keeps_names data name names :
  shape_violation data ->
  (qr data name names).2 = names /\
  forall data', qr data' None (qr data name names).2 = qr data' None names.
Proof.
  intros H. apply check_rejects in H.
  assert (E : (qr data name names).2 = names) by (unfold qr; rewrite H; reflexivity).
  split; [exact E|]. intros data'. rewrite E. reflexivity.
Qed.

Lemma C10_rejection_keeps_names_witness :
  shape_violation vector /\
  (qr vector None names_init).2 = names_init /\
  forall data', qr data' None (qr vector None names_init).2
                = qr data' None names_init.
Proof.
  assert (H : shape_violation vector).
  { left. unfold da.ndim. simpl. lia. }
  split; [exact H|]. apply (C10_rejection_keeps_names vector None names_init H).
Defined.

(** ** The graphs [qr] returns *)

(** Look a key up in the graph of a handle: skip the later
    dictionaries of other names, then read the dictionary of the
    key's own name. *)
Ltac find_task :=
  unfold dsk_q, dsk_r, stage1, stage2, stage3, assembly; cbv zeta;
  skip_updates; apply update_lookup_new.

Ltac read_single :=
  unfold dsk_r_st1_stacked, dsk_q_st2_aux, dsk_r_st2, stack_task, to_stack;
  rewrite ?dict_of_singleton, ?dsk_qr_st2_eq; apply lookup_singleton_eq.

Section Graphs.
Variables (p data_name : string) (nblocks n : Z) (data_dask : gmap key task).

Lemma dsk_q_stack :
  dsk_q p data_name [nblocks; 1] nblocks n data_dask
  !! (name_r_st1_stacked p, [0; 0]) = Some (stack_task p nblocks).
Proof. find_task. read_single. Qed.

Lemma dsk_r_stack :
  dsk_r p data_name [nblocks; 1] nblocks data_dask
  !! (name_r_st1_stacked p, [0; 0]) = Some (stack_task p nblocks).
Proof. find_task. read_single. Qed.

Lemma dsk_q_r_st1 i :
  0 <= i < nblocks ->
  dsk_q p data_name [nblocks; 1] nblocks n data_dask !! (name_r_st1 p, [i; 0])
  = Some (operator_getitem, [Key (name_qr_st1 p, [i; 0]); Int 1]).
Proof. intros Hi. find_task. apply dsk_r_st1_lookup. eauto. Qed.

Lemma dsk_r_r_st1 i :
  0 <= i < nblocks ->
  dsk_r p data_name [nblocks; 1] nblocks data_dask !! (name_r_st1 p, [i; 0])
  = Some (operator_getitem, [Key (name_qr_st1 p, [i; 0]); Int 1]).
Proof. intros Hi. find_task. apply dsk_r_st1_lookup. eauto. Qed.

Lemma dsk_q_q_st1 i :
  0 <= i < nblocks ->
  dsk_q p data_name [nblocks; 1] nblocks n data_dask !! (name_q_st1 p, [i; 0])
  = Some (operator_getitem, [Key (name_qr_st1 p, [i; 0]); Int 0]).
Proof. intros Hi. find_task. apply dsk_q_st1_lookup. eauto. Qed.

Lemma dsk_q_qr_st1 i :
  0 <= i < nblocks ->
  dsk_q p data_name [nblocks; 1] nblocks n data_dask !! (name_qr_st1 p, [i; 0])
  = Some (np_linalg_qr, [Key (data_name, [i; 0])]).
Proof. intros Hi. find_task. apply dsk_qr_st1_lookup. eauto. Qed.

Lemma dsk_q_q_st2 i :
  0 <= i < nblocks ->
  dsk_q p data_name [nblocks; 1] nblocks n data_dask !! (name_q_st2 p, [i; 0])
  = Some (operator_getitem,
          [Key (name_q_st2_aux p, [0; 0]);
           Slices [(i * n, (i + 1) * n); (0, n)]]).
Proof. intros Hi. find_task. apply dsk_q_st2_lookup. eauto. Qed.

Lemma dsk_q_q_st2_aux :
  dsk_q p data_name [nblocks; 1] nblocks n data_dask !! (name_q_st2_aux p, [0; 0])
  = Some (operator_getitem, [Key (name_qr_st2 p, [0; 0]); Int 0]).
Proof. find_task. read_single. Qed.

Lemma dsk_q_qr_st2 :
  dsk_q p data_name [nblocks; 1] nblocks n data_dask !! (name_qr_st2 p, [0; 0])
  = Some (np_linalg_qr, [Key (name_r_st1_stacked p, [0; 0])]).
Proof. find_task. read_single. Qed.



End Graphs.

(** The scenario of the specification is a valid input. *)
Ltac valid_scenario :=
  constructor;
  [reflexivity | reflexivity | lia | lia
  | vm_compute; reflexivity | vm_compute; reflexivity].

Lemma update_assoc (d a b : gmap key task) :
  update d (update a b) = update (update d a) b.
Proof. unfold update. rewrite (assoc_L (∪)). reflexivity. Qed.

Lemma update_empty (d : gmap key task) : update ∅ d = d.
Proof. unfold update. apply (right_id_L ∅ (∪)). Qed.

(** ** What [qr] returns on the sample inputs *)

(** What [qr] returns on the tall input. *)
Lemma tall_qr name names :
  qr tall name names =
  (Ok ({| da.dask := dsk_q (prefix_of name names) "y" [2; 1] 2 1 (da.dask tall);
          da.name := name_q_st3 (prefix_of name names);
          da.shape := da.shape tall;
          da.blockdims := da.blockdims tall |},
       {| da.dask := dsk_r (prefix_of name names) "y" [2; 1] 2 (da.dask tall);
          da.name := name_r_st2 (prefix_of name names);
          da.shape := [1; 1];
          da.blockdims := [[1]; [1]] |}),
   (choose_prefix name names).2).
Proof.
  destruct (qr_valid tall (2 ^ 53 + 1) 1 (2 ^ 52) name names)
    as (nb & _ & Hf & Hq).
  { constructor;
      [reflexivity | reflexivity | lia | lia
      | vm_compute; reflexivity | vm_compute; reflexivity]. }
  vm_compute in Hf. injection Hf as <-. exact Hq.
Qed.

(** What [qr] returns on the irregular input: the planner counts
    [ceil(10 / 2) = 5] row blocks, and the orthogonal handle is cut in
    five row blocks of the height of the input's first. *)
Lemma irregular_qr name names :
  qr irregular name names =
  (Ok ({| da.dask := dsk_q (prefix_of name names) "u" [5; 1] 5 2
                           (da.dask irregular);
          da.name := name_q_st3 (prefix_of name names);
          da.shape := [10; 2];
          da.blockdims := [[2; 2; 2; 2; 2]; [2]] |},
       {| da.dask := dsk_r (prefix_of name names) "u" [5; 1] 5
                           (da.dask irregular);
          da.name := name_r_st2 (prefix_of name names);
          da.shape := [2; 2];
          da.blockdims := [[2]; [2]] |}),
   (choose_prefix name names).2).
Proof.
  destruct (qr_accepted irregular 10 2 2 name names) as (nb & _ & Hf & Hq);
    [reflexivity
    |split; [lia|vm_compute; reflexivity]
    |split; [lia|vm_compute; reflexivity]
    |split; [lia|vm_compute; reflexivity]|].
  vm_compute in Hf. injection Hf as <-. exact Hq.
Qed.

(** ** The stack and the slices *)








(** The Stage1 tasks, block by block. *)
Lemma stage1_lookup p data_name nblocks k t :
  stage1 p data_name [nblocks; 1] nblocks !! k = Some t ->
  exists i, 0 <= i < nblocks /\
    ((k = (name_qr_st1 p, [i; 0]) /\
      t = (np_linalg_qr, [Key (data_name, [i; 0])])) \/
     (k = (name_q_st1 p, [i; 0]) /\
      t = (operator_getitem, [Key (name_qr_st1 p, [i; 0]); Int 0])) \/
     (k = (name_r_st1 p, [i; 0]) /\
      t = (operator_getitem, [Key (name_qr_st1 p, [i; 0]); Int 1]))).
Proof.
  unfold stage1. intros H.
  apply update_lookup_Some in H as [H|H];
    [|apply update_lookup_Some in H as [H|H]].
  - apply dsk_r_st1_lookup in H as (i & Hi & -> & ->). eauto 10.
  - apply dsk_q_st1_lookup in H as (i & Hi & -> & ->). eauto 10.
  - apply dsk_qr_st1_lookup in H as (i & Hi & -> & ->). eauto 10.
Qed.

(** C6: on every valid input the Stage1 tasks of row block [i] (the
    local factorization and the two extractions) are in the returned
    graph, and each depends only on keys of block [i]: the input's
    block [i] for the factorization, the factorization of block [i]
    for the extractions.  No Stage1 task of block [i] has an edge to a
    key of another block [j]. *)
Theorem C6_stage1_blocks_independent data m n br name names :
  valid_input data m n br ->
  exists q r nblocks,
    qr data name names = (Ok (q, r), (choose_prefix name names).2) /\
    _findnumblocks (da.shape data) [br; n] = Ok [nblocks; 1] /\
    1 <= nblocks /\
    (forall i, 0 <= i < nblocks ->
       da.dask q !! (name_qr_st1 (prefix_of name names), [i; 0])
       = Some (np_linalg_qr, [Key (da.name data, [i; 0])]) /\
       da.dask q !! (name_q_st1 (prefix_of name names), [i; 0])
       = Some (operator_getitem,
               [Key (name_qr_st1 (prefix_of name names), [i; 0]); Int 0]) /\
       da.dask q !! (name_r_st1 (prefix_of name names), [i; 0])
       = Some (operator_getitem,
               [Key (name_qr_st1 (prefix_of name names), [i; 0]); Int 1])) /\
    (forall k t,
       stage1 (prefix_of name names) (da.name data) [nblocks; 1] nblocks !! k
       = Some t ->
       da.dask q !! k = Some t /\
       exists i, 0 <= i < nblocks /\ block_of k = Some i /\
         forall k', k' ∈ deps t ->
           block_of k' = Some i /\
           (k'.1 = da.name data \/ k'.1 = name_qr_st1 (prefix_of name names))) /\
    (forall i j k t k',
       i <> j ->
       stage1 (prefix_of name names) (da.name data) [nblocks; 1] nblocks !! k
       = Some t ->
       block_of k = Some i -> k' ∈ deps t -> block_of k' <> Some j).
Proof.
  intros Hv. destruct (qr_valid data m n br name names Hv) as (nblocks & Hnb & Hf & Hq).
  eexists _, _, nblocks. split; [exact Hq|]. split; [exact Hf|]. split; [exact Hnb|].
  simpl da.dask. set (p := prefix_of name names).
  assert (Hdeps : forall k t,
    stage1 p (da.name data) [nblocks; 1] nblocks !! k = Some t ->
    dsk_q p (da.name data) [nblocks; 1] nblocks n (da.dask data) !! k = Some t /\
    exists i, 0 <= i < nblocks /\ block_of k = Some i /\
      forall k', k' ∈ deps t ->
        block_of k' = Some i /\ (k'.1 = da.name data \/ k'.1 = name_qr_st1 p)).
  { intros k t H.
    apply stage1_lookup in H as (i & Hi & [[-> ->]|[[-> ->]|[-> ->]]]).
    - split; [apply dsk_q_qr_st1; assumption|].
      exists i. split; [assumption|]. split; [reflexivity|].
      intros k' Hk'. apply list_elem_of_singleton in Hk'. subst k'. auto.
    - split; [apply dsk_q_q_st1; assumption|].
      exists i. split; [assumption|]. split; [reflexivity|].
      intros k' Hk'. apply list_elem_of_singleton in Hk'. subst k'. auto.
    - split; [apply dsk_q_r_st1; assumption|].
      exists i. split; [assumption|]. split; [reflexivity|].
      intros k' Hk'. apply list_elem_of_singleton in Hk'. subst k'. auto. }
  split.
  { intros i Hi. split; [apply dsk_q_qr_st1; assumption|].
    split; [apply dsk_q_q_st1; assumption|apply dsk_q_r_st1; assumption]. }
  split; [exact Hdeps|].
  intros i j k t k' Hij Hk Hb Hk'.
  destruct (Hdeps k t Hk) as (_ & i' & _ & Hb' & Hd).
  destruct (Hd k' Hk') as [-> _]. congruence.
Qed.

Lemma C6_stage1_blocks_independent_witness :
  valid_input scenario 10 2 5 /\
  exists q r nblocks,
    qr scenario (Some "a") 3%N
    = (Ok (q, r), (choose_prefix (Some "a") 3%N).2) /\
    _findnumblocks (da.shape scenario) [5; 2] = Ok [nblocks; 1] /\
    1 <= nblocks /\
    (forall i, 0 <= i < nblocks ->
       da.dask q !! (name_qr_st1 (prefix_of (Some "a") 3%N), [i; 0])
       = Some (np_linalg_qr, [Key (da.name scenario, [i; 0])]) /\
       da.dask q !! (name_q_st1 (prefix_of (Some "a") 3%N), [i; 0])
       = Some (operator_getitem,
               [Key (name_qr_st1 (prefix_of (Some "a") 3%N), [i; 0]); Int 0]) /\
       da.dask q !! (name_r_st1 (prefix_of (Some "a") 3%N), [i; 0])
       = Some (operator_getitem,
               [Key (name_qr_st1 (prefix_of (Some "a") 3%N), [i; 0]); Int 1])) /\
    (forall k t,
       stage1 (prefix_of (Some "a") 3%N) (da.name scenario) [nblocks; 1] nblocks
       !! k = Some t ->
       da.dask q !! k = Some t /\
       exists i, 0 <= i < nblocks /\ block_of k = Some i /\
         forall k', k' ∈ deps t ->
           block_of k' = Some i /\
           (k'.1 = da.name scenario
            \/ k'.1 = name_qr_st1 (prefix_of (Some "a") 3%N))) /\
    (forall i j k t k',
       i <> j ->
       stage1 (prefix_of (Some "a") 3%N) (da.name scenario) [nblocks; 1] nblocks
       !! k = Some t ->
       block_of k = Some i -> k' ∈ deps t -> block_of k' <> Some j).
Proof.
  assert (H : valid_input scenario 10 2 5) by valid_scenario.
  split; [exact H|].
  exact (C6_stage1_blocks_independent scenario 10 2 5 (Some "a") 3%N H).
Defined.

(** ** The composition of the two graphs *)

Lemma dsk_r_composition p data_name nblocks data_dask :
  dsk_r p data_name [nblocks; 1] nblocks data_dask
  = update (update (update data_dask (dsk_qr_st1 p data_name [nblocks; 1]))
                   (dsk_r_st1 p nblocks))
           (stage2 p nblocks).
Proof.
  unfold dsk_r, stage2. cbv zeta.
  rewrite update_empty, !update_assoc. reflexivity.
Qed.

Lemma dsk_q_composition p data_name nblocks n data_dask :
  dsk_q p data_name [nblocks; 1] nblocks n data_dask
  = update (update (update (update (update data_dask
                                     (stage1 p data_name [nblocks; 1] nblocks))
                                   (dsk_r_st1_stacked p nblocks))
                           (dsk_qr_st2 p))
                   (stage3 p [nblocks; 1] n))
           (assembly p [nblocks; 1]).
Proof.
  unfold dsk_q, stage1, stage3, assembly. cbv zeta.
  rewrite update_empty, !update_assoc. reflexivity.
Qed.

(** C7, as the code has it: on every valid input the triangular-factor
    handle carries the union of the input's graph, Stage1's local
    factorization tasks and triangular extractions, and the Stage2
    tasks (stack, global factorization, triangular extraction); it is
    named after the final extraction task, has shape [(n, n)] and a
    single block.  The local factorization tasks, which the claim
    leaves out, are part of the graph. *)
Theorem C7_triangular_handle data m n br name names :
  valid_input data m n br ->
  exists q r nblocks,
    qr data name names = (Ok (q, r), (choose_prefix name names).2) /\
    _findnumblocks (da.shape data) [br; n] = Ok [nblocks; 1] /\
    1 <= nblocks /\
    da.dask r
    = update (update (update (da.dask data)
                             (dsk_qr_st1 (prefix_of name names) (da.name data)
                                         [nblocks; 1]))
                     (dsk_r_st1 (prefix_of name names) nblocks))
             (stage2 (prefix_of name names) nblocks) /\
    da.name r = name_r_st2 (prefix_of name names) /\
    da.dask r !! (da.name r, [0; 0])
    = Some (operator_getitem,
            [Key (name_qr_st2 (prefix_of name names), [0; 0]); Int 1]) /\
    da.shape r = [n; n] /\
    da.blockdims r = [[n]; [n]].
Proof.
  intros Hv. destruct (qr_valid data m n br name names Hv) as (nblocks & Hnb & Hf & Hq).
  eexists _, _, nblocks. split; [exact Hq|]. split; [exact Hf|]. split; [exact Hnb|].
  simpl. split; [apply dsk_r_composition|]. split; [reflexivity|].
  split; [|split; reflexivity].
  find_task. read_single.
Qed.

Lemma C7_triangular_handle_witness :
  valid_input scenario 10 2 5 /\
  exists q r nblocks,
    qr scenario (Some "t") names_init
    = (Ok (q, r), (choose_prefix (Some "t") names_init).2) /\
    _findnumblocks (da.shape scenario) [5; 2] = Ok [nblocks; 1] /\
    1 <= nblocks /\
    da.dask r
    = update (update (update (da.dask scenario)
                             (dsk_qr_st1 (prefix_of (Some "t") names_init)
                                         (da.name scenario) [nblocks; 1]))
                     (dsk_r_st1 (prefix_of (Some "t") names_init) nblocks))
             (stage2 (prefix_of (Some "t") names_init) nblocks) /\
    da.name r = name_r_st2 (prefix_of (Some "t") names_init) /\
    da.dask r !! (da.name r, [0; 0])
    = Some (operator_getitem,
            [Key (name_qr_st2 (prefix_of (Some "t") names_init), [0; 0]);
             Int 1]) /\
    da.shape r = [2; 2] /\
    da.blockdims r = [[2]; [2]].
Proof.
  assert (H : valid_input scenario 10 2 5) by valid_scenario.
  split; [exact H|].
  exact (C7_triangular_handle scenario 10 2 5 (Some "t") names_init H).
Defined.

(** What [qr] returns in the scenario of the specification. *)
Lemma scenario_qr name names :
  qr scenario name names =
  (Ok ({| da.dask := dsk_q (prefix_of name names) "x" [2; 1] 2 2
                           (da.dask scenario);
          da.name := name_q_st3 (prefix_of name names);
          da.shape := [10; 2];
          da.blockdims := [[5; 5]; [2]] |},
       {| da.dask := dsk_r (prefix_of name names) "x" [2; 1] 2
                           (da.dask scenario);
          da.name := name_r_st2 (prefix_of name names);
          da.shape := [2; 2];
          da.blockdims := [[2]; [2]] |}),
   (choose_prefix name names).2).
Proof.
  destruct (qr_valid scenario 10 2 5 name names) as (nb & _ & Hf & Hq);
    [valid_scenario|].
  vm_compute in Hf. injection Hf as <-. exact Hq.
Qed.

(** C7 as stated fails: in the scenario of the specification the
    triangular handle's graph holds the local factorization task of
    block 0, which is in none of the input's graph, Stage1's triangular
    extractions and Stage2. *)
Lemma C7_counterexample :
  exists q r,
    qr scenario (Some "t") names_init = (Ok (q, r), names_init) /\
    _findnumblocks (da.shape scenario) [5; 2] = Ok [2; 1] /\
    da.dask r !! ("t_QR_st1", [0; 0])
    = Some (np_linalg_qr, [Key ("x", [0; 0])]) /\
    spec_dsk_r "t_" 2 (da.dask scenario) !! ("t_QR_st1", [0; 0]) = None /\
    da.dask r <> spec_dsk_r "t_" 2 (da.dask scenario).
Proof.
  eexists _, _. split; [apply scenario_qr|].
  split; [vm_compute; reflexivity|].
  assert (E1 : dsk_r "t_" "x" [2; 1] 2 (da.dask scenario) !! ("t_QR_st1", [0; 0])
               = Some (np_linalg_qr, [Key ("x", [0; 0])]))
    by (vm_compute; reflexivity).
  assert (E2 : spec_dsk_r "t_" 2 (da.dask scenario) !! ("t_QR_st1", [0; 0])
               = None)
    by (vm_compute; reflexivity).
  split; [exact E1|]. split; [exact E2|].
  intros E.
  pose proof (eq_trans (eq_sym E1)
                (eq_trans (f_equal (fun d : gmap key task =>
                                      d !! ("t_QR_st1", [0; 0])) E) E2)) as C.
  discriminate C.
Qed.

(** C8, as the code has it: on every accepted input with positive
    extents that convert to [float] the orthogonal-factor handle
    carries the union of the input's graph, the Stage1 tasks, Stage2's
    stack and global factorization tasks, the Stage3 tasks and the
    Assembly tasks; Stage2's final triangular extraction is not added
    to it.  The handle is named after the Assembly tasks and has the
    shape of the input and one column block.  Its row blocks are cut
    from the rows of the input by the height of the input's first row
    block: they are the row blocks of the input exactly when the input
    is cut that way. *)
Theorem C8_orthogonal_handle data m n br name names :
  check data = Ok ([br; n], m, n) ->
  0 < br < Float.int_bound -> 0 < m < Float.int_bound ->
  0 < n < Float.int_bound ->
  exists q r nblocks,
    qr data name names = (Ok (q, r), (choose_prefix name names).2) /\
    _findnumblocks (da.shape data) [br; n] = Ok [nblocks; 1] /\
    1 <= nblocks /\
    da.dask q
    = update (update (update (update (update (da.dask data)
                (stage1 (prefix_of name names) (da.name data) [nblocks; 1]
                        nblocks))
                (dsk_r_st1_stacked (prefix_of name names) nblocks))
                (dsk_qr_st2 (prefix_of name names)))
                (stage3 (prefix_of name names) [nblocks; 1] n))
             (assembly (prefix_of name names) [nblocks; 1]) /\
    da.dask q !! (name_r_st2 (prefix_of name names), [0; 0])
    = da.dask data !! (name_r_st2 (prefix_of name names), [0; 0]) /\
    da.name q = name_q_st3 (prefix_of name names) /\
    (forall i, 0 <= i < nblocks ->
       da.dask q !! (da.name q, [i; 0])
       = Some (np_dot, [Key (name_q_st1 (prefix_of name names), [i; 0]);
                        Key (name_q_st2 (prefix_of name names), [i; 0])])) /\
    da.shape q = da.shape data /\
    da.blockdims q = [row_blocks m br; [n]] /\
    (da.blockdims q = da.blockdims data <->
     da.blockdims data = [row_blocks m br; [n]]).
Proof.
  intros Hc Hbr Hm Hn.
  destruct (qr_accepted data m n br name names Hc Hbr Hm Hn)
    as (nblocks & Hnb & Hf & Hq).
  eexists _, _, nblocks. split; [exact Hq|]. split; [exact Hf|]. split; [exact Hnb|].
  simpl. split; [apply dsk_q_composition|].
  split.
  { unfold dsk_q. cbv zeta. skip_updates. rewrite update_empty. reflexivity. }
  split; [reflexivity|].
  split.
  { intros i Hi. unfold dsk_q. cbv zeta. apply update_lookup_new.
    apply dsk_q_st3_lookup. eauto. }
  split; [reflexivity|]. split; [reflexivity|].
  split; intros E; symmetry; exact E.
Qed.

Lemma C8_orthogonal_handle_witness :
  (check scenario = Ok ([5; 2], 10, 2) /\
   0 < 5 < Float.int_bound /\ 0 < 10 < Float.int_bound /\
   0 < 2 < Float.int_bound) /\
  exists q r nblocks,
    qr scenario (Some "t") names_init
    = (Ok (q, r), (choose_prefix (Some "t") names_init).2) /\
    _findnumblocks (da.shape scenario) [5; 2] = Ok [nblocks; 1] /\
    1 <= nblocks /\
    da.dask q
    = update (update (update (update (update (da.dask scenario)
                (stage1 (prefix_of (Some "t") names_init) (da.name scenario)
                        [nblocks; 1] nblocks))
                (dsk_r_st1_stacked (prefix_of (Some "t") names_init) nblocks))
                (dsk_qr_st2 (prefix_of (Some "t") names_init)))
                (stage3 (prefix_of (Some "t") names_init) [nblocks; 1] 2))
             (assembly (prefix_of (Some "t") names_init) [nblocks; 1]) /\
    da.dask q !! (name_r_st2 (prefix_of (Some "t") names_init), [0; 0])
    = da.dask scenario !! (name_r_st2 (prefix_of (Some "t") names_init), [0; 0]) /\
    da.name q = name_q_st3 (prefix_of (Some "t") names_init) /\
    (forall i, 0 <= i < nblocks ->
       da.dask q !! (da.name q, [i; 0])
       = Some (np_dot,
               [Key (name_q_st1 (prefix_of (Some "t") names_init), [i; 0]);
                Key (name_q_st2 (prefix_of (Some "t") names_init), [i; 0])])) /\
    da.shape q = da.shape scenario /\
    da.blockdims q = [row_blocks 10 5; [2]] /\
    (da.blockdims q = da.blockdims scenario <->
     da.blockdims scenario = [row_blocks 10 5; [2]]).
Proof.
  assert (H1 : check scenario = Ok ([5; 2], 10, 2)) by reflexivity.
  assert (H2 : 0 < 5 < Float.int_bound)
    by (split; [lia|vm_compute; reflexivity]).
  assert (H3 : 0 < 10 < Float.int_bound)
    by (split; [lia|vm_compute; reflexivity]).
  assert (H4 : 0 < 2 < Float.int_bound)
    by (split; [lia|vm_compute; reflexivity]).
  split; [exact (conj H1 (conj H2 (conj H3 H4)))|].
  exact (C8_orthogonal_handle scenario 10 2 5 (Some "t") names_init H1 H2 H3 H4).
Defined.

(** C8 as stated fails twice.  In the scenario of the specification
    the orthogonal handle's graph has no task for the key of Stage2's
    final triangular extraction, which the union of all stage
    dictionaries binds.  And the array [irregular] passes the
    validation with row blocks of 2, 5 and 3 rows, but the orthogonal
    handle is cut in five row blocks of 2 rows: [qr] reads the block
    shape from the first block of each axis. *)
Lemma C8_counterexample :
  (exists q r,
     qr scenario (Some "t") names_init = (Ok (q, r), names_init) /\
     _findnumblocks (da.shape scenario) [5; 2] = Ok [2; 1] /\
     da.dask q !! ("t_R", [0; 0]) = None /\
     spec_dsk_q "t_" "x" [2; 1] 2 2 (da.dask scenario) !! ("t_R", [0; 0])
     = Some (operator_getitem, [Key ("t_QR_st2", [0; 0]); Int 1]) /\
     da.dask q <> spec_dsk_q "t_" "x" [2; 1] 2 2 (da.dask scenario)) /\
  (accepted irregular /\
   exists q r,
     qr irregular (Some "t") names_init = (Ok (q, r), names_init) /\
     da.shape q = da.shape irregular /\
     da.blockdims irregular = [[2; 5; 3]; [2]] /\
     da.blockdims q = [[2; 2; 2; 2; 2]; [2]] /\
     da.blockdims q <> da.blockdims irregular).
Proof.
  split.
  - eexists _, _. split; [apply scenario_qr|].
    split; [vm_compute; reflexivity|].
    assert (E1 : dsk_q "t_" "x" [2; 1] 2 2 (da.dask scenario) !! ("t_R", [0; 0])
                 = None)
      by (vm_compute; reflexivity).
    assert (E2 : spec_dsk_q "t_" "x" [2; 1] 2 2 (da.dask scenario)
                 !! ("t_R", [0; 0])
                 = Some (operator_getitem, [Key ("t_QR_st2", [0; 0]); Int 1]))
      by (vm_compute; reflexivity).
    split; [exact E1|]. split; [exact E2|].
    intros E.
    pose proof (eq_trans (eq_sym E1)
                  (eq_trans (f_equal (fun d : gmap key task =>
                                        d !! ("t_R", [0; 0])) E) E2)) as C.
    discriminate C.
  - split; [eexists; reflexivity|].
    eexists _, _. split; [apply irregular_qr|].
    split; [reflexivity|]. split; [reflexivity|]. split; [reflexivity|].
    simpl. discriminate.
Qed.

(** ** The block-count law *)

(** C3, where the code departs from it: an array of [2^53 + 1] rows and
    one column in row blocks of height [2^52] is a valid input with
    [ceil(m / br) = 3] row blocks, but [float(m)] rounds to [2^53] and
    the block planner counts two: [qr] builds the tasks of blocks 0
    and 1 and none for block 2.  The column-block count is 1. *)
Theorem C3_block_count_lost_in_float :
  valid_input tall (2 ^ 53 + 1) 1 (2 ^ 52) /\
  ceil_div (2 ^ 53 + 1) (2 ^ 52) = 3 /\
  length (row_blocks (2 ^ 53 + 1) (2 ^ 52)) = 3%nat /\
  Float.of_int (2 ^ 53 + 1) = Float.of_int (2 ^ 53) /\
  _findnumblocks (da.shape tall) [2 ^ 52; 1] = Ok [2; 1] /\
  exists q r,
    qr tall (Some "t") names_init = (Ok (q, r), names_init) /\
    da.dask q !! ("t_Q", [1; 0])
    = Some (np_dot, [Key ("t_Q_st1", [1; 0]); Key ("t_Q_st2", [1; 0])]) /\
    da.dask q !! ("t_Q", [2; 0]) = None /\
    da.dask q !! ("t_QR_st1", [2; 0]) = None.
Proof.
  split.
  { constructor;
      [reflexivity | reflexivity | lia | lia
      | vm_compute; reflexivity | vm_compute; reflexivity]. }
  split; [vm_compute; reflexivity|]. split; [vm_compute; reflexivity|].
  split; [vm_compute; reflexivity|]. split; [vm_compute; reflexivity|].
  eexists _, _. split; [apply tall_qr|].
  change (da.dask _) with (dsk_q "t_" "y" [2; 1] 2 1 (da.dask tall)).
  repeat split; vm_compute; reflexivity.
Qed.

(** ** The failure modes of the block planner *)

Section DivCeilErrors.
Import Float FloatFacts.

Lemma int_bound_eq : int_bound = (2 ^ (prec + 1) - 1) * 2 ^ (emax - prec - 1).
Proof. reflexivity. Qed.

Lemma pow2_ulp : 2 ^ (emax - prec) = 2 * 2 ^ (emax - prec - 1).
Proof. reflexivity. Qed.

(** [float(a)] is finite below the threshold, with the sign of [a]. *)
Lemma of_int_finite a :
  Z.abs a < int_bound ->
  exists m e,
    of_int a = Ok (Finite (if a <? 0 then - m else m) e) /\
    0 <= m < 2 ^ prec /\ emin <= e <= emax - prec /\
    (a <> 0 -> 2 ^ (prec - 1) <= m /\ 1 - prec <= e) /\
    (a = 0 -> m = 0).
Proof.
  intros Ha. unfold of_int. destruct (Z.eq_dec a 0) as [->|Hne].
  - exists 0, 0. simpl. change (2 ^ prec) with 9007199254740992.
    unfold emin, emax, prec. repeat split; lia.
  - destruct (round_finite (a <? 0) (Z.abs a) 1) as (m & e & E & Hm & He & Hge & _);
      [lia|lia| |].
    { pose proof int_bound_twice. lia. }
    rewrite E. exists m, e. split; [reflexivity|].
    split; [exact Hm|]. split; [exact He|].
    split; [intros _; apply Hge; lia|contradiction].
Qed.

(** From the threshold on [float(a)] overflows. *)
Lemma of_int_overflow a :
  int_bound <= Z.abs a -> of_int a = Raise OverflowError.
Proof.
  intros Ha. unfold of_int, round. rewrite int_bound_eq in Ha.
  assert (HP : 0 < 2 ^ (emax - prec - 1))
    by (apply Z.pow_pos_nonneg; unfold emax, prec; lia).
  change (2 ^ (prec + 1)) with 18014398509481984 in Ha.
  set (n := Z.abs a) in *.
  assert (Hn : 0 < n) by nia.
  destruct (Z.eqb_spec n 0); [lia|].
  destruct (mag_spec n 1 Hn ltac:(lia)) as [L U].
  pose proof (round_mantissa_upper n 1 (fexp (mag n 1)) Hn ltac:(lia)) as Hup.
  set (g := mag n 1) in *.
  assert (Hg : emax <= g).
  { destruct (Z.le_gt_cases emax g) as [?|C]; [assumption|exfalso].
    assert (C' : g <= emax - 1) by lia.
    destruct (Z.le_gt_cases 0 g) as [G|G].
    - destruct (up_dn_nonneg g G) as [E1 E2]. rewrite E1, E2 in U.
      assert (2 ^ g <= 2 ^ (emax - 1)) by (apply Z.pow_le_mono_r; lia).
      assert (2 ^ (emax - 1) = 9007199254740992 * 2 ^ (emax - prec - 1))
        by reflexivity.
      set (P := 2 ^ (emax - prec - 1)) in *. nia.
    - destruct (up_dn_nonpos g ltac:(lia)) as [E1 E2]. rewrite E1 in U.
      pose proof (dn_pos g). nia. }
  assert (Ee : fexp g = g - prec) by (unfold fexp, emin, emax, prec in *; lia).
  rewrite Ee in *. specialize (Hup ltac:(lia)).
  set (m := round_mantissa n 1 (g - prec)) in *.
  destruct (Z.eq_dec g emax) as [Eg|Ng].
  - assert (Em : m = 2 ^ prec).
    { unfold m, round_mantissa. rewrite Eg.
      destruct (up_dn_nonneg (emax - prec)) as [E1 E2]; [unfold emax, prec; lia|].
      rewrite E1, E2, pow2_ulp, Z.mul_1_r, Z.mul_1_l.
      rewrite Eg in U. destruct (up_dn_nonneg emax) as [E3 E4]; [unfold emax; lia|].
      rewrite E3, E4 in U.
      assert (E5 : 2 ^ emax = 18014398509481984 * 2 ^ (emax - prec - 1))
        by reflexivity.
      rewrite E5 in U.
      set (P := 2 ^ (emax - prec - 1)) in *.
      pose proof (Z.div_mod n (2 * P) ltac:(lia)) as D.
      pose proof (Z.mod_pos_bound n (2 * P) ltac:(lia)) as R.
      assert (Eq : n `div` (2 * P) = 9007199254740991) by nia.
      rewrite Eq in *.
      change (2 ^ prec) with 9007199254740992.
      destruct (Z.compare_spec (2 * (n `mod` (2 * P))) (2 * P));
        [reflexivity|nia|reflexivity]. }
    rewrite Em, Z.eqb_refl.
    destruct (Z.ltb_spec (emax - prec) (g - prec + 1)); [|lia].
    reflexivity.
  - destruct (m =? 2 ^ prec).
    + destruct (Z.ltb_spec (emax - prec) (g - prec + 1)); [|lia]. reflexivity.
    + destruct (Z.ltb_spec (emax - prec) (g - prec)); [|lia]. reflexivity.
Qed.

(** The quotient of two normal numbers of exponent at least [1 - prec]
    neither overflows nor vanishes. *)
Lemma round_quotient_finite s ma ea mb eb :
  2 ^ (prec - 1) <= ma < 2 ^ prec -> 1 - prec <= ea <= emax - prec ->
  2 ^ (prec - 1) <= mb < 2 ^ prec -> 1 - prec <= eb <= emax - prec ->
  exists m e,
    round s (ma * up (ea - eb)) (mb * dn (ea - eb))
    = Finite (if s then - m else m) e /\ 0 < m.
Proof.
  intros Hma Hea Hmb Heb.
  destruct (normal_value_bounds ma ea Hma Hea) as [A1 A2].
  destruct (normal_value_bounds mb eb Hmb Heb) as [B1 B2].
  change (2 ^ (prec - 1)) with 4503599627370496 in *.
  change (2 ^ prec) with 9007199254740992 in *.
  set (k := ea - eb).
  pose proof (up_pos k). pose proof (dn_pos k).
  pose proof (up_pos ea). pose proof (dn_pos ea).
  pose proof (up_pos eb). pose proof (dn_pos eb).
  pose proof (up_dn_add k eb) as E.
  replace (k + eb) with ea in E by (unfold k; lia).
  assert (HP : 0 < 2 ^ (emax - prec))
    by (apply Z.pow_pos_nonneg; unfold emax, prec; lia).
  set (P := 2 ^ (emax - prec)) in *.
  assert (Hc : 0 < dn ea * up eb) by nia.
  destruct (round_finite s (ma * up k) (mb * dn k))
    as (m & e & -> & _ & _ & _ & Hpos); [nia|nia| |].
  - change (2 ^ (prec + 1)) with 18014398509481984. fold P.
    assert (ma * up k * (dn ea * up eb)
            <= 9007199254740991 * P * (mb * dn k) * (dn ea * up eb)).
    { replace (ma * up k * (dn ea * up eb))
        with (ma * (dn ea * (up k * up eb))) by lia.
      rewrite <- E.
      assert (ma * (up ea * (dn k * dn eb))
              <= 9007199254740991 * P * dn ea * (dn k * dn eb)) by nia.
      assert (9007199254740991 * P * dn ea * dn k * dn eb
              <= 9007199254740991 * P * dn ea * dn k * (mb * up eb)).
      { apply Z.mul_le_mono_nonneg_l; [|assumption]. nia. }
      lia. }
    assert (ma * up k <= 9007199254740991 * P * (mb * dn k)) by nia.
    assert (0 < P * (mb * dn k)) by nia.
    lia.
  - exists m, e. split; [reflexivity|]. apply Hpos.
    assert (9007199254740991 * P <= 2 ^ (- emin)).
    { assert (9007199254740992 * P = 2 ^ emax) by (rewrite pow2_emax; reflexivity).
      assert (2 ^ emax <= 2 ^ (- emin))
        by (apply Z.pow_le_mono_r; unfold emin, emax, prec; lia).
      lia. }
    assert (mb * dn k * (dn ea * up eb)
            <= 9007199254740991 * P * (ma * up k) * (dn ea * up eb)).
    { replace (9007199254740991 * P * (ma * up k) * (dn ea * up eb))
        with (9007199254740991 * P * ma * (dn ea * (up k * up eb))) by lia.
      rewrite <- E.
      assert (mb * up eb * (dn k * dn ea)
              <= 9007199254740991 * P * dn eb * (dn k * dn ea)).
      { apply Z.mul_le_mono_nonneg_r; [nia|assumption]. }
      assert (9007199254740991 * P * dn k * dn eb * dn ea
              <= 9007199254740991 * P * dn k * dn eb * (ma * up ea)).
      { apply Z.mul_le_mono_nonneg_l; [|assumption]. nia. }
      lia. }
    assert (mb * dn k <= 9007199254740991 * P * (ma * up k)) by nia.
    assert (0 < ma * up k) by nia.
    nia.
Qed.

Lemma abs_signed (neg : bool) m : 0 <= m -> Z.abs (if neg then - m else m) = m.
Proof. destruct neg; lia. Qed.

(** [div_ceil] returns whenever both integers convert to [float] and
    the divisor is not zero. *)
Lemma div_ceil_returns a b :
  Z.abs a < int_bound -> Z.abs b < int_bound -> b <> 0 ->
  exists k, div_ceil (a, b) = Ok k.
Proof.
  intros Ha Hb Hb0. unfold div_ceil. simpl fst. simpl snd.
  destruct (of_int_finite a Ha) as (ma & ea & -> & Hma & Hea & Na & Za).
  destruct (of_int_finite b Hb) as (mb & eb & -> & Hmb & Heb & Nb & _).
  specialize (Nb Hb0). destruct Nb as [Nb1 Nb2].
  change (2 ^ (prec - 1)) with 4503599627370496 in Nb1.
  cbn [mbind result_bind is_zero].
  destruct (Z.eqb_spec (if b <? 0 then - mb else mb) 0) as [C|_];
    [destruct (b <? 0); lia|].
  cbn [div]. rewrite !abs_signed by lia.
  destruct (Z.eq_dec a 0) as [A0|A0].
  - rewrite (Za A0). unfold round. simpl. eauto.
  - specialize (Na A0). destruct Na as [Na1 Na2].
    destruct (round_quotient_finite
                (xorb ((if a <? 0 then - ma else ma) <? 0)
                      ((if b <? 0 then - mb else mb) <? 0))
                ma ea mb eb) as (m & e & -> & _);
      [lia|lia|change (2 ^ (prec - 1)) with 4503599627370496; lia|lia|].
    simpl. eauto.
Qed.

Lemma div_ceil_by_zero a :
  Z.abs a < int_bound -> div_ceil (a, 0) = Raise ZeroDivisionError.
Proof.
  intros Ha. unfold div_ceil. simpl fst. simpl snd.
  destruct (of_int_finite a Ha) as (ma & ea & -> & _). reflexivity.
Qed.

End DivCeilErrors.

(** X1: the outcome of [div_ceil] on any pair of integers.  It returns
    exactly when both integers are below the overflow threshold of
    [float] in magnitude and the divisor is not zero; it raises
    [OverflowError] exactly when one of them is not, and
    [ZeroDivisionError] exactly when the dividend converts and the
    divisor is zero.  It raises nothing else. *)
Theorem X1_div_ceil_outcome a b :
  match div_ceil (a, b) with
  | Ok _ =>
      Z.abs a < Float.int_bound /\ Z.abs b < Float.int_bound /\ b <> 0
  | Raise OverflowError =>
      Float.int_bound <= Z.abs a \/ Float.int_bound <= Z.abs b
  | Raise ZeroDivisionError => Z.abs a < Float.int_bound /\ b = 0
  | Raise _ => False
  end.
Proof.
  destruct (Z.lt_ge_cases (Z.abs a) Float.int_bound) as [Ha|Ha].
  - destruct (Z.lt_ge_cases (Z.abs b) Float.int_bound) as [Hb|Hb].
    + destruct (Z.eq_dec b 0) as [->|Hb0].
      * rewrite (div_ceil_by_zero a Ha). auto.
      * destruct (div_ceil_returns a b Ha Hb Hb0) as [k ->]. auto.
    + unfold div_ceil. simpl fst. simpl snd.
      destruct (of_int_finite a Ha) as (ma & ea & -> & _).
      rewrite (of_int_overflow b Hb). simpl. auto.
  - unfold div_ceil. simpl fst.
    rewrite (of_int_overflow a Ha). simpl. auto.
Qed.


(** X2: for positive integers below [2^53] the block planner's
    [div_ceil] is exact: it returns the least [k] with [a <= k * b]. *)
Theorem X2_div_ceil_least_cover a b :
  0 < a < 2 ^ 53 -> 0 < b < 2 ^ 53 ->
  exists k, div_ceil (a, b) = Ok k /\ (k - 1) * b < a <= k * b /\
            forall k', a <= k' * b -> k <= k'.
Proof.
  intros Ha Hb. exists (ceil_div a b).
  split; [apply div_ceil_exact; assumption|].
  pose proof (ceil_div_spec a b ltac:(lia)) as S.
  split; [exact S|]. intros k' Hk'. nia.
Qed.

Lemma X2_div_ceil_least_cover_witness :
  (0 < 10 < 2 ^ 53 /\ 0 < 3 < 2 ^ 53) /\
  exists k, div_ceil (10, 3) = Ok k /\ (k - 1) * 3 < 10 <= k * 3 /\
            forall k', 10 <= k' * 3 -> k <= k'.
Proof.
  assert (H1 : 0 < 10 < 2 ^ 53) by (simpl; lia).
  assert (H2 : 0 < 3 < 2 ^ 53) by (simpl; lia).
  split; [split; assumption|].
  exact (X2_div_ceil_least_cover 10 3 H1 H2).
Defined.

(** X3: for positive integers that convert to [float], however large,
    [div_ceil] counts at least one block, and exactly one when the two
    are equal. *)
Theorem X3_div_ceil_positive a b :
  0 < a < Float.int_bound -> 0 < b < Float.int_bound ->
  exists k, div_ceil (a, b) = Ok k /\ 1 <= k /\ (a = b -> k = 1).
Proof.
  intros Ha Hb. destruct (div_ceil_total a b Ha Hb) as (k & E & Hk).
  exists k. split; [exact E|]. split; [exact Hk|].
  intros ->. rewrite (div_ceil_same b Hb) in E. congruence.
Qed.

Lemma X3_div_ceil_positive_witness :
  (0 < 2 ^ 80 + 1 < Float.int_bound /\ 0 < 2 ^ 80 + 1 < Float.int_bound) /\
  exists k, div_ceil (2 ^ 80 + 1, 2 ^ 80 + 1) = Ok k /\ 1 <= k /\
            (2 ^ 80 + 1 = 2 ^ 80 + 1 -> k = 1).
Proof.
  assert (H : 0 < 2 ^ 80 + 1 < Float.int_bound) by (vm_compute; split; reflexivity).
  split; [split; exact H|].
  exact (X3_div_ceil_positive (2 ^ 80 + 1) (2 ^ 80 + 1) H H).
Defined.

(** The tasks a call creates on a valid input. *)
Lemma new_tasks_valid data m n br name names :
  valid_input data m n br ->
  exists nblocks,
    1 <= nblocks /\
    _findnumblocks (da.shape data) [br; n] = Ok [nblocks; 1] /\
    new_tasks data name names
    = created (prefix_of name names) (da.name data) [nblocks; 1] nblocks n.
Proof.
  intros Hv. pose proof (check_valid _ _ _ _ Hv) as Hc.
  destruct (qr_valid data m n br name names Hv) as (nblocks & Hnb & Hf & _).
  exists nblocks. split; [exact Hnb|]. split; [exact Hf|].
  unfold new_tasks. rewrite Hc, Hf. reflexivity.
Qed.

(** X4: on a valid input of fewer than [2^53] rows the block planner
    counts the row blocks the input really has, and [qr] creates one
    local factorization per row block of the input: the task that
    factors block [i] is created if and only if the input has a row
    block [i]. *)
Theorem X4_one_factorization_per_block data m n br name names :
  valid_input data m n br -> m < 2 ^ 53 ->
  exists bd0 q r,
    da.blockdims data !! 0%nat = Some bd0 /\
    _findnumblocks (da.shape data) [br; n]
    = Ok [Z.of_nat (length bd0); 1] /\
    qr data name names = (Ok (q, r), (choose_prefix name names).2) /\
    forall i,
      0 <= i < Z.of_nat (length bd0) <->
      new_tasks data name names !! (name_qr_st1 (prefix_of name names), [i; 0])
      = Some (np_linalg_qr, [Key (da.name data, [i; 0])]).
Proof.
  intros Hv Hm.
  pose proof (numblocks_exact data m n br Hv Hm) as Hf.
  destruct (qr_valid data m n br name names Hv) as (nblocks & _ & Hf' & Hq).
  destruct (new_tasks_valid data m n br name names Hv) as (nb' & _ & Hf'' & Hn).
  rewrite Hf in Hf', Hf''. injection Hf' as <-. injection Hf'' as <-.
  pose proof (valid_br _ _ _ _ Hv) as Hbr.
  pose proof (row_blocks_length m br ltac:(lia) ltac:(lia)) as Hl.
  assert (Hc : 0 <= ceil_div m br).
  { pose proof (ceil_div_spec m br ltac:(lia)). nia. }
  exists (row_blocks m br). eexists _, _.
  split; [rewrite (valid_blockdims _ _ _ _ Hv); reflexivity|].
  rewrite Hl, Z2Nat.id by exact Hc.
  split; [exact Hf|]. split; [exact Hq|].
  intros i. rewrite Hn. unfold created, stage1, stage2, stage3, assembly.
  rewrite !update_assoc. skip_updates. rewrite dsk_qr_st1_lookup. split.
  - intros Hi. exists i. auto.
  - intros (i' & Hi' & [= ->] & _). exact Hi'.
Qed.

Lemma X4_one_factorization_per_block_witness :
  (valid_input scenario 10 2 5 /\ 10 < 2 ^ 53) /\
  exists bd0 q r,
    da.blockdims scenario !! 0%nat = Some bd0 /\
    _findnumblocks (da.shape scenario) [5; 2]
    = Ok [Z.of_nat (length bd0); 1] /\
    qr scenario None names_init
    = (Ok (q, r), (choose_prefix None names_init).2) /\
    forall i,
      0 <= i < Z.of_nat (length bd0) <->
      new_tasks scenario None names_init
      !! (name_qr_st1 (prefix_of None names_init), [i; 0])
      = Some (np_linalg_qr, [Key (da.name scenario, [i; 0])]).
Proof.
  assert (H : valid_input scenario 10 2 5) by valid_scenario.
  assert (H' : 10 < 2 ^ 53) by (simpl; lia).
  split; [split; assumption|].
  exact (X4_one_factorization_per_block scenario 10 2 5 None names_init H H').
Defined.

(** ** What the merges keep *)

Lemma named_outside p a d k :
  named (p +:+ a) d -> a ∈ suffixes -> outside p k -> d !! k = None.
Proof.
  intros Hd Ha Hk. apply (named_other (p +:+ a)); [exact Hd|]. apply Hk. exact Ha.
Qed.

(** A key outside the namespace is in none of the nine dictionaries. *)
Ltac outside_name :=
  match goal with
  | Hk : outside ?p ?k |- ?d !! ?k = None =>
      eapply named_other; [solve [auto with tsqr_names]|];
      unfold name_qr_st1, name_q_st1, name_r_st1, name_r_st1_stacked,
        name_qr_st2, name_q_st2_aux, name_q_st2, name_r_st2, name_q_st3;
      apply Hk; unfold suffixes; set_solver
  end.

Ltac contained NAMED :=
  let s := fresh "s" in let idx := fresh "idx" in
  let t := fresh "t" in let H := fresh "H" in let E := fresh "E" in
  apply map_subseteq_spec; intros [s idx] t H;
  pose proof (NAMED _ _ H) as E; simpl in E; subst s;
  unfold dsk_q, dsk_r; cbv zeta; skip_updates;
  apply update_lookup_new; exact H.

Section Merges.
Variables (p data_name : string) (numblocks : list Z) (nblocks n : Z).
Variable data_dask : gmap key task.

Lemma dsk_q_keeps :
  Forall (fun d => d ⊆ dsk_q p data_name numblocks nblocks n data_dask)
    [dsk_qr_st1 p data_name numblocks; dsk_q_st1 p nblocks;
     dsk_r_st1 p nblocks; dsk_r_st1_stacked p nblocks; dsk_qr_st2 p;
     dsk_q_st2_aux p; dsk_q_st2 p numblocks n; dsk_q_st3 p numblocks].
Proof.
  repeat apply Forall_cons_2; [| | | | | | | |apply Forall_nil_2].
  - contained (dsk_qr_st1_named p data_name numblocks).
  - contained (dsk_q_st1_named p nblocks).
  - contained (dsk_r_st1_named p nblocks).
  - contained (dsk_r_st1_stacked_named p nblocks).
  - contained (dsk_qr_st2_named p).
  - contained (dsk_q_st2_aux_named p).
  - contained (dsk_q_st2_named p numblocks n).
  - contained (dsk_q_st3_named p numblocks).
Qed.

Lemma dsk_r_keeps :
  Forall (fun d => d ⊆ dsk_r p data_name numblocks nblocks data_dask)
    [dsk_qr_st1 p data_name numblocks; dsk_r_st1 p nblocks;
     dsk_r_st1_stacked p nblocks; dsk_qr_st2 p; dsk_r_st2 p].
Proof.
  repeat apply Forall_cons_2; [| | | | |apply Forall_nil_2].
  - contained (dsk_qr_st1_named p data_name numblocks).
  - contained (dsk_r_st1_named p nblocks).
  - contained (dsk_r_st1_stacked_named p nblocks).
  - contained (dsk_qr_st2_named p).
  - contained (dsk_r_st2_named p).
Qed.

Lemma dsk_q_outside k :
  outside p k ->
  dsk_q p data_name numblocks nblocks n data_dask !! k = data_dask !! k.
Proof.
  intros Hk. unfold dsk_q. cbv zeta.
  repeat (rewrite update_lookup_old by outside_name).
  rewrite update_empty. reflexivity.
Qed.

Lemma dsk_r_outside k :
  outside p k ->
  dsk_r p data_name numblocks nblocks data_dask !! k = data_dask !! k.
Proof.
  intros Hk. unfold dsk_r. cbv zeta.
  repeat (rewrite update_lookup_old by outside_name).
  rewrite update_empty. reflexivity.
Qed.

End Merges.

(** X5: on every valid input no update overwrites a task the call has
    built: each of the eight dictionaries merged into the orthogonal
    handle's graph, and each of the five merged into the triangular
    handle's graph, is contained in that graph; and a task of the
    input's graph whose key lies outside the call's namespace is kept
    in both. *)
Theorem X5_merges_keep_every_task data m n br name names :
  valid_input data m n br ->
  exists q r nblocks,
    qr data name names = (Ok (q, r), (choose_prefix name names).2) /\
    _findnumblocks (da.shape data) [br; n] = Ok [nblocks; 1] /\
    Forall (fun d => d ⊆ da.dask q)
      [dsk_qr_st1 (prefix_of name names) (da.name data) [nblocks; 1];
       dsk_q_st1 (prefix_of name names) nblocks;
       dsk_r_st1 (prefix_of name names) nblocks;
       dsk_r_st1_stacked (prefix_of name names) nblocks;
       dsk_qr_st2 (prefix_of name names);
       dsk_q_st2_aux (prefix_of name names);
       dsk_q_st2 (prefix_of name names) [nblocks; 1] n;
       dsk_q_st3 (prefix_of name names) [nblocks; 1]] /\
    Forall (fun d => d ⊆ da.dask r)
      [dsk_qr_st1 (prefix_of name names) (da.name data) [nblocks; 1];
       dsk_r_st1 (prefix_of name names) nblocks;
       dsk_r_st1_stacked (prefix_of name names) nblocks;
       dsk_qr_st2 (prefix_of name names);
       dsk_r_st2 (prefix_of name names)] /\
    forall k t,
      outside (prefix_of name names) k -> da.dask data !! k = Some t ->
      da.dask q !! k = Some t /\ da.dask r !! k = Some t.
Proof.
  intros Hv. destruct (qr_valid data m n br name names Hv) as (nblocks & Hnb & Hf & Hq).
  eexists _, _, nblocks. split; [exact Hq|]. split; [exact Hf|].
  simpl da.dask. split; [apply dsk_q_keeps|]. split; [apply dsk_r_keeps|].
  intros k t Hk Hd. rewrite dsk_q_outside, dsk_r_outside by exact Hk. auto.
Qed.

Lemma X5_merges_keep_every_task_witness :
  valid_input scenario 10 2 5 /\
  exists q r nblocks,
    qr scenario (Some "t") names_init
    = (Ok (q, r), (choose_prefix (Some "t") names_init).2) /\
    _findnumblocks (da.shape scenario) [5; 2] = Ok [nblocks; 1] /\
    Forall (fun d => d ⊆ da.dask q)
      [dsk_qr_st1 (prefix_of (Some "t") names_init) (da.name scenario)
                  [nblocks; 1];
       dsk_q_st1 (prefix_of (Some "t") names_init) nblocks;
       dsk_r_st1 (prefix_of (Some "t") names_init) nblocks;
       dsk_r_st1_stacked (prefix_of (Some "t") names_init) nblocks;
       dsk_qr_st2 (prefix_of (Some "t") names_init);
       dsk_q_st2_aux (prefix_of (Some "t") names_init);
       dsk_q_st2 (prefix_of (Some "t") names_init) [nblocks; 1] 2;
       dsk_q_st3 (prefix_of (Some "t") names_init) [nblocks; 1]] /\
    Forall (fun d => d ⊆ da.dask r)
      [dsk_qr_st1 (prefix_of (Some "t") names_init) (da.name scenario)
                  [nblocks; 1];
       dsk_r_st1 (prefix_of (Some "t") names_init) nblocks;
       dsk_r_st1_stacked (prefix_of (Some "t") names_init) nblocks;
       dsk_qr_st2 (prefix_of (Some "t") names_init);
       dsk_r_st2 (prefix_of (Some "t") names_init)] /\
    forall k t,
      outside (prefix_of (Some "t") names_init) k ->
      da.dask scenario !! k = Some t ->
      da.dask q !! k = Some t /\ da.dask r !! k = Some t.
Proof.
  assert (H : valid_input scenario 10 2 5) by valid_scenario.
  split; [exact H|].
  exact (X5_merges_keep_every_task scenario 10 2 5 (Some "t") names_init H).
Defined.

(** The orthogonal handle's graph reads the key of the final
    triangular extraction from the input's graph. *)
Lemma dsk_q_lookup_r_st2 p data_name numblocks nblocks n data_dask idx :
  dsk_q p data_name numblocks nblocks n data_dask !! (name_r_st2 p, idx)
  = data_dask !! (name_r_st2 p, idx).
Proof. unfold dsk_q. cbv zeta. skip_updates. rewrite update_empty. reflexivity. Qed.

(** The two graphs of a call bind a shared key to the same task when
    the input's graph has no key in the call's namespace. *)
Lemma dsk_q_r_agree p data_name numblocks nblocks n data_dask k t1 t2 :
  (forall k', is_Some (data_dask !! k') -> outside p k') ->
  dsk_q p data_name numblocks nblocks n data_dask !! k = Some t1 ->
  dsk_r p data_name numblocks nblocks data_dask !! k = Some t2 ->
  t1 = t2.
Proof.
  intros Hout Hq Hr.
  pose proof (dsk_q_keeps p data_name numblocks nblocks n data_dask) as Kq.
  repeat (apply Forall_cons_1 in Kq as [? Kq]).
  unfold dsk_r in Hr. cbv zeta in Hr. rewrite update_empty in Hr.
  repeat (apply update_lookup_Some in Hr as [Hr|Hr]).
  - pose proof (dsk_r_st2_named p _ _ Hr) as E.
    destruct k as [s idx]. simpl in E. subst s.
    rewrite dsk_q_lookup_r_st2 in Hq.
    assert (O : outside p (name_r_st2 p, idx)) by (apply Hout; eauto).
    exfalso. apply (O "R"); [unfold suffixes; set_solver|reflexivity].
  - eapply (map_subseteq_spec (dsk_qr_st2 p)) in Hr; [|eassumption]. congruence.
  - eapply (map_subseteq_spec (dsk_r_st1_stacked p nblocks)) in Hr; [|eassumption].
    congruence.
  - eapply (map_subseteq_spec (dsk_r_st1 p nblocks)) in Hr; [|eassumption].
    congruence.
  - eapply (map_subseteq_spec (dsk_qr_st1 p data_name numblocks)) in Hr;
      [|eassumption].
    congruence.
  - assert (O : outside p k) by (apply Hout; eauto).
    rewrite dsk_q_outside in Hq by exact O. congruence.
Qed.

(** X6: on every valid input whose graph has no key in the call's
    namespace, the graphs of the two handles bind every key they share
    to the same task: they can be merged in either order. *)
Theorem X6_handles_agree data m n br name names :
  valid_input data m n br ->
  (forall k, is_Some (da.dask data !! k) -> outside (prefix_of name names) k) ->
  exists q r,
    qr data name names = (Ok (q, r), (choose_prefix name names).2) /\
    (forall k t1 t2,
       da.dask q !! k = Some t1 -> da.dask r !! k = Some t2 -> t1 = t2) /\
    da.dask q ∪ da.dask r = da.dask r ∪ da.dask q.
Proof.
  intros Hv Hout.
  destruct (qr_valid data m n br name names Hv) as (nblocks & Hnb & Hf & Hq).
  eexists _, _. split; [exact Hq|]. simpl da.dask.
  assert (A : forall k t1 t2,
    dsk_q (prefix_of name names) (da.name data) [nblocks; 1] nblocks n
          (da.dask data) !! k = Some t1 ->
    dsk_r (prefix_of name names) (da.name data) [nblocks; 1] nblocks
          (da.dask data) !! k = Some t2 -> t1 = t2).
  { intros k t1 t2. apply dsk_q_r_agree. exact Hout. }
  split; [exact A|].
  apply map_eq. intros k. rewrite !lookup_union.
  destruct (dsk_q _ _ _ _ _ _ !! k) as [t1|] eqn:E1;
    destruct (dsk_r _ _ _ _ _ !! k) as [t2|] eqn:E2; simpl; try reflexivity.
  rewrite (A k t1 t2 E1 E2). reflexivity.
Qed.

Lemma scenario_outside p k :
  (forall a, a ∈ suffixes -> "x" <> p +:+ a) ->
  is_Some (da.dask scenario !! k) -> outside p k.
Proof.
  intros Hp [t H]. apply dict_of_lookup_elem in H.
  assert (E : k.1 = "x").
  { repeat (apply elem_of_cons in H as [H|H]); try (injection H as -> _; reflexivity).
    apply elem_of_nil in H. destruct H. }
  intros a Ha. rewrite E. apply Hp. exact Ha.
Qed.

Lemma X6_handles_agree_witness :
  (valid_input scenario 10 2 5 /\
   forall k, is_Some (da.dask scenario !! k) ->
             outside (prefix_of (Some "t") names_init) k) /\
  exists q r,
    qr scenario (Some "t") names_init
    = (Ok (q, r), (choose_prefix (Some "t") names_init).2) /\
    (forall k t1 t2,
       da.dask q !! k = Some t1 -> da.dask r !! k = Some t2 -> t1 = t2) /\
    da.dask q ∪ da.dask r = da.dask r ∪ da.dask q.
Proof.
  assert (H : valid_input scenario 10 2 5) by valid_scenario.
  assert (H' : forall k, is_Some (da.dask scenario !! k) ->
                         outside (prefix_of (Some "t") names_init) k).
  { intros k. apply scenario_outside. intros a Ha. unfold suffixes in Ha.
    repeat (apply elem_of_cons in Ha as [->|Ha]); try discriminate;
      try (apply elem_of_nil in Ha; destruct Ha). }
  split; [split; assumption|].
  exact (X6_handles_agree scenario 10 2 5 (Some "t") names_init H H').
Defined.

(** ** Dependencies *)

Lemma deps_keys f {A} (g : A -> key) (l : list A) :
  deps (f, (fun i => Key (g i)) <$> l) = g <$> l.
Proof.
  unfold deps. simpl. induction l as [|x l IH]; [reflexivity|].
  cbn. cbn in IH. rewrite IH. reflexivity.
Qed.

Lemma update_bound (d other : gmap key task) k :
  is_Some (d !! k) -> is_Some (update d other !! k).
Proof.
  intros [t H]. destruct (other !! k) as [t'|] eqn:E.
  - exists t'. apply update_lookup_new. exact E.
  - exists t. rewrite update_lookup_old by exact E. exact H.
Qed.

Section Closure.
Variables (p data_name : string) (nblocks n : Z) (data_dask : gmap key task).
Hypothesis input_closed : closed data_dask.
Hypothesis input_blocks :
  forall i, 0 <= i < nblocks -> is_Some (data_dask !! (data_name, [i; 0])).

Lemma dsk_q_bound_input k :
  is_Some (data_dask !! k) ->
  is_Some (dsk_q p data_name [nblocks; 1] nblocks n data_dask !! k).
Proof.
  intros H. unfold dsk_q. cbv zeta. rewrite update_empty.
  repeat apply update_bound. exact H.
Qed.

Lemma dsk_r_bound_input k :
  is_Some (data_dask !! k) ->
  is_Some (dsk_r p data_name [nblocks; 1] nblocks data_dask !! k).
Proof.
  intros H. unfold dsk_r. cbv zeta. rewrite update_empty.
  repeat apply update_bound. exact H.
Qed.

Lemma dsk_q_closed : closed (dsk_q p data_name [nblocks; 1] nblocks n data_dask).
Proof.
  intros k t H k' Hk'. unfold dsk_q in H. cbv zeta in H.
  rewrite update_empty in H.
  repeat (apply update_lookup_Some in H as [H|H]).
  - apply dsk_q_st3_lookup in H as (i & Hi & -> & ->).
    apply elem_of_cons in Hk' as [->|Hk'];
      [rewrite dsk_q_q_st1 by exact Hi; eauto|].
    apply list_elem_of_singleton in Hk' as ->.
    rewrite dsk_q_q_st2 by exact Hi. eauto.
  - apply dsk_q_st2_lookup in H as (i & Hi & -> & ->).
    apply list_elem_of_singleton in Hk' as ->.
    rewrite dsk_q_q_st2_aux. eauto.
  - unfold dsk_q_st2_aux in H. rewrite dict_of_singleton in H.
    apply lookup_singleton_Some in H as [<- <-].
    apply list_elem_of_singleton in Hk' as ->.
    rewrite dsk_q_qr_st2. eauto.
  - rewrite dsk_qr_st2_eq in H. apply lookup_singleton_Some in H as [<- <-].
    apply list_elem_of_singleton in Hk' as ->.
    rewrite dsk_q_stack. eauto.
  - unfold dsk_r_st1_stacked in H. rewrite dict_of_singleton in H.
    apply lookup_singleton_Some in H as [<- <-].
    unfold to_stack in Hk'. rewrite deps_keys in Hk'.
    apply list_elem_of_fmap in Hk' as (i & -> & Hi). apply xrange_elem in Hi.
    rewrite dsk_q_r_st1 by exact Hi. eauto.
  - apply dsk_r_st1_lookup in H as (i & Hi & -> & ->).
    apply list_elem_of_singleton in Hk' as ->.
    rewrite dsk_q_qr_st1 by exact Hi. eauto.
  - apply dsk_q_st1_lookup in H as (i & Hi & -> & ->).
    apply list_elem_of_singleton in Hk' as ->.
    rewrite dsk_q_qr_st1 by exact Hi. eauto.
  - apply dsk_qr_st1_lookup in H as (i & Hi & -> & ->).
    apply list_elem_of_singleton in Hk' as ->.
    apply dsk_q_bound_input. apply input_blocks. exact Hi.
  - apply dsk_q_bound_input. eapply input_closed; eassumption.
Qed.

Lemma dsk_r_closed : closed (dsk_r p data_name [nblocks; 1] nblocks data_dask).
Proof.
  pose proof (dsk_r_keeps p data_name [nblocks; 1] nblocks data_dask) as K.
  repeat (apply Forall_cons_1 in K as [? K]).
  intros k t L k' Hk'. unfold dsk_r in L. cbv zeta in L.
  rewrite update_empty in L.
  repeat (apply update_lookup_Some in L as [L|L]).
  - unfold dsk_r_st2 in L. rewrite dict_of_singleton in L.
    apply lookup_singleton_Some in L as [<- <-].
    apply list_elem_of_singleton in Hk' as ->.
    eexists. eapply (map_subseteq_spec (dsk_qr_st2 p)); [eassumption|].
    rewrite dsk_qr_st2_eq. apply lookup_singleton_eq.
  - rewrite dsk_qr_st2_eq in L. apply lookup_singleton_Some in L as [<- <-].
    apply list_elem_of_singleton in Hk' as ->.
    rewrite dsk_r_stack. eauto.
  - unfold dsk_r_st1_stacked in L. rewrite dict_of_singleton in L.
    apply lookup_singleton_Some in L as [<- <-].
    unfold to_stack in Hk'. rewrite deps_keys in Hk'.
    apply list_elem_of_fmap in Hk' as (i & -> & Hi). apply xrange_elem in Hi.
    rewrite dsk_r_r_st1 by exact Hi. eauto.
  - apply dsk_r_st1_lookup in L as (i & Hi & -> & ->).
    apply list_elem_of_singleton in Hk' as ->.
    eexists. eapply (map_subseteq_spec (dsk_qr_st1 p data_name [nblocks; 1]));
      [eassumption|].
    apply dsk_qr_st1_lookup. eauto.
  - apply dsk_qr_st1_lookup in L as (i & Hi & -> & ->).
    apply list_elem_of_singleton in Hk' as ->.
    apply dsk_r_bound_input. apply input_blocks. exact Hi.
  - apply dsk_r_bound_input. eapply input_closed; eassumption.
Qed.

End Closure.

(** X7: on a valid input of fewer than [2^53] rows whose graph is
    closed and binds each of its row blocks [(name, i, 0)], the graphs
    of both handles are closed: no task refers to a key that the graph
    does not bind. *)
Theorem X7_graphs_closed data m n br name names :
  valid_input data m n br -> m < 2 ^ 53 ->
  closed (da.dask data) ->
  (forall i, 0 <= i < ceil_div m br ->
             is_Some (da.dask data !! (da.name data, [i; 0]))) ->
  exists q r,
    qr data name names = (Ok (q, r), (choose_prefix name names).2) /\
    closed (da.dask q) /\ closed (da.dask r).
Proof.
  intros Hv Hm Hc Hb.
  pose proof (numblocks_exact data m n br Hv Hm) as Hf.
  destruct (qr_valid data m n br name names Hv) as (nblocks & _ & Hf' & Hq).
  rewrite Hf in Hf'. injection Hf' as <-.
  eexists _, _. split; [exact Hq|]. simpl da.dask.
  split; [apply dsk_q_closed|apply dsk_r_closed]; assumption.
Qed.

Lemma scenario_closed : closed (da.dask scenario).
Proof.
  intros k t H k' Hk'. apply dict_of_lookup_elem in H.
  repeat (apply elem_of_cons in H as [H|H]);
    try (injection H as _ ->; apply elem_of_nil in Hk'; destruct Hk').
  apply elem_of_nil in H. destruct H.
Qed.

Lemma X7_graphs_closed_witness :
  (valid_input scenario 10 2 5 /\ 10 < 2 ^ 53 /\
   closed (da.dask scenario) /\
   forall i, 0 <= i < ceil_div 10 5 ->
             is_Some (da.dask scenario !! (da.name scenario, [i; 0]))) /\
  exists q r,
    qr scenario None names_init
    = (Ok (q, r), (choose_prefix None names_init).2) /\
    closed (da.dask q) /\ closed (da.dask r).
Proof.
  assert (H1 : valid_input scenario 10 2 5) by valid_scenario.
  assert (H2 : 10 < 2 ^ 53) by (simpl; lia).
  assert (H3 : closed (da.dask scenario)) by exact scenario_closed.
  assert (H4 : forall i, 0 <= i < ceil_div 10 5 ->
                 is_Some (da.dask scenario !! (da.name scenario, [i; 0]))).
  { intros i Hi. change (ceil_div 10 5) with 2 in Hi.
    assert (i = 0 \/ i = 1) as [->| ->] by lia; eexists; vm_compute; reflexivity. }
  split; [exact (conj H1 (conj H2 (conj H3 H4)))|].
  exact (X7_graphs_closed scenario 10 2 5 None names_init H1 H2 H3 H4).
Defined.

(** ** The single synchronization point *)

Ltac first_dep := apply list_elem_of_here.
Ltac second_dep := apply list_elem_of_further, list_elem_of_here.

Section Reach.
Variables (p data_name : string) (nblocks n : Z) (data_dask : gmap key task).

Lemma dsk_q_q_st3 i :
  0 <= i < nblocks ->
  dsk_q p data_name [nblocks; 1] nblocks n data_dask !! (name_q_st3 p, [i; 0])
  = Some (np_dot, [Key (name_q_st1 p, [i; 0]); Key (name_q_st2 p, [i; 0])]).
Proof. intros Hi. find_task. apply dsk_q_st3_lookup. eauto. Qed.

Lemma dsk_r_r_st2 :
  dsk_r p data_name [nblocks; 1] nblocks data_dask !! (name_r_st2 p, [0; 0])
  = Some (operator_getitem, [Key (name_qr_st2 p, [0; 0]); Int 1]).
Proof. find_task. read_single. Qed.

Lemma dsk_r_qr_st2 :
  dsk_r p data_name [nblocks; 1] nblocks data_dask !! (name_qr_st2 p, [0; 0])
  = Some (np_linalg_qr, [Key (name_r_st1_stacked p, [0; 0])]).
Proof. find_task. read_single. Qed.

Lemma dsk_r_qr_st1 i :
  0 <= i < nblocks ->
  dsk_r p data_name [nblocks; 1] nblocks data_dask !! (name_qr_st1 p, [i; 0])
  = Some (np_linalg_qr, [Key (data_name, [i; 0])]).
Proof. intros Hi. find_task. apply dsk_qr_st1_lookup. eauto. Qed.

Lemma stack_deps j :
  0 <= j < nblocks -> (name_r_st1 p, [j; 0]) ∈ deps (stack_task p nblocks).
Proof.
  intros Hj. unfold stack_task. rewrite deps_keys.
  apply list_elem_of_fmap. exists j. split; [reflexivity|].
  apply elem_of_seqZ. lia.
Qed.

(** From the stack task down to an input block. *)
Lemma dsk_q_reach_below_stack j :
  0 <= j < nblocks ->
  reach (dsk_q p data_name [nblocks; 1] nblocks n data_dask)
        (name_r_st1_stacked p, [0; 0]) (data_name, [j; 0]).
Proof.
  intros Hj.
  eapply reach_step; [apply dsk_q_stack|apply stack_deps; exact Hj|].
  eapply reach_step; [apply dsk_q_r_st1; exact Hj|first_dep|].
  eapply reach_edge; [apply dsk_q_qr_st1; exact Hj|first_dep].
Qed.

Lemma dsk_r_reach_below_stack j :
  0 <= j < nblocks ->
  reach (dsk_r p data_name [nblocks; 1] nblocks data_dask)
        (name_r_st1_stacked p, [0; 0]) (data_name, [j; 0]).
Proof.
  intros Hj.
  eapply reach_step; [apply dsk_r_stack|apply stack_deps; exact Hj|].
  eapply reach_step; [apply dsk_r_r_st1; exact Hj|first_dep|].
  eapply reach_edge; [apply dsk_r_qr_st1; exact Hj|first_dep].
Qed.

Lemma dsk_q_reach_stack i :
  0 <= i < nblocks ->
  reach (dsk_q p data_name [nblocks; 1] nblocks n data_dask)
        (name_q_st3 p, [i; 0]) (name_r_st1_stacked p, [0; 0]).
Proof.
  intros Hi.
  eapply reach_step; [apply dsk_q_q_st3; exact Hi|second_dep|].
  eapply reach_step; [apply dsk_q_q_st2; exact Hi|first_dep|].
  eapply reach_step; [apply dsk_q_q_st2_aux|first_dep|].
  eapply reach_edge; [apply dsk_q_qr_st2|first_dep].
Qed.

Lemma dsk_r_reach_stack :
  reach (dsk_r p data_name [nblocks; 1] nblocks data_dask)
        (name_r_st2 p, [0; 0]) (name_r_st1_stacked p, [0; 0]).
Proof.
  eapply reach_step; [apply dsk_r_r_st2|first_dep|].
  eapply reach_edge; [apply dsk_r_qr_st2|first_dep].
Qed.

End Reach.

Lemma reach_trans g k1 k2 k3 : reach g k1 k2 -> reach g k2 k3 -> reach g k1 k3.
Proof.
  intros H12 H23. induction H12 as [k t k' Hk Hd|k t k' k'' Hk Hd _ IH].
  - eapply reach_step; eassumption.
  - eapply reach_step; [exact Hk|exact Hd|]. apply IH. exact H23.
Qed.

(** X8: on every valid input of fewer than [2^53] rows every block of
    the orthogonal factor and the triangular factor depend on every
    row block of the input, and they do so through the one stack task:
    each output reaches the stack task, and the stack task reaches
    each input block. *)
Theorem X8_outputs_depend_on_every_block data m n br name names :
  valid_input data m n br -> m < 2 ^ 53 ->
  exists bd0 q r,
    da.blockdims data !! 0%nat = Some bd0 /\
    qr data name names = (Ok (q, r), (choose_prefix name names).2) /\
    da.blockdims q !! 0%nat = Some bd0 /\
    1 <= Z.of_nat (length bd0) /\
    forall i j,
      0 <= i < Z.of_nat (length bd0) -> 0 <= j < Z.of_nat (length bd0) ->
      reach (da.dask q) (da.name q, [i; 0])
            (name_r_st1_stacked (prefix_of name names), [0; 0]) /\
      reach (da.dask q) (name_r_st1_stacked (prefix_of name names), [0; 0])
            (da.name data, [j; 0]) /\
      reach (da.dask q) (da.name q, [i; 0]) (da.name data, [j; 0]) /\
      reach (da.dask r) (da.name r, [0; 0])
            (name_r_st1_stacked (prefix_of name names), [0; 0]) /\
      reach (da.dask r) (name_r_st1_stacked (prefix_of name names), [0; 0])
            (da.name data, [j; 0]) /\
      reach (da.dask r) (da.name r, [0; 0]) (da.name data, [j; 0]).
Proof.
  intros Hv Hm.
  destruct (qr_valid_blocks data m n br name names Hv Hm)
    as (bd0 & Hb & Hnb & Hf & Hn & Hq).
  exists bd0. eexists _, _. split; [exact Hb|]. split; [exact Hq|].
  split; [exact Hb|]. split; [exact Hnb|].
  intros i j Hi Hj. simpl da.dask. simpl da.name.
  pose proof (dsk_q_reach_stack (prefix_of name names) (da.name data)
                (Z.of_nat (length bd0)) n (da.dask data) i Hi) as Q1.
  pose proof (dsk_q_reach_below_stack (prefix_of name names) (da.name data)
                (Z.of_nat (length bd0)) n (da.dask data) j Hj) as Q2.
  pose proof (dsk_r_reach_stack (prefix_of name names) (da.name data)
                (Z.of_nat (length bd0)) (da.dask data)) as R1.
  pose proof (dsk_r_reach_below_stack (prefix_of name names) (da.name data)
                (Z.of_nat (length bd0)) (da.dask data) j Hj) as R2.
  split; [exact Q1|]. split; [exact Q2|].
  split; [exact (reach_trans _ _ _ _ Q1 Q2)|].
  split; [exact R1|]. split; [exact R2|].
  exact (reach_trans _ _ _ _ R1 R2).
Qed.

Lemma X8_outputs_depend_on_every_block_witness :
  (valid_input scenario 10 2 5 /\ 10 < 2 ^ 53) /\
  exists bd0 q r,
    da.blockdims scenario !! 0%nat = Some bd0 /\
    qr scenario None names_init
    = (Ok (q, r), (choose_prefix None names_init).2) /\
    da.blockdims q !! 0%nat = Some bd0 /\
    1 <= Z.of_nat (length bd0) /\
    forall i j,
      0 <= i < Z.of_nat (length bd0) -> 0 <= j < Z.of_nat (length bd0) ->
      reach (da.dask q) (da.name q, [i; 0])
            (name_r_st1_stacked (prefix_of None names_init), [0; 0]) /\
      reach (da.dask q) (name_r_st1_stacked (prefix_of None names_init), [0; 0])
            (da.name scenario, [j; 0]) /\
      reach (da.dask q) (da.name q, [i; 0]) (da.name scenario, [j; 0]) /\
      reach (da.dask r) (da.name r, [0; 0])
            (name_r_st1_stacked (prefix_of None names_init), [0; 0]) /\
      reach (da.dask r) (name_r_st1_stacked (prefix_of None names_init), [0; 0])
            (da.name scenario, [j; 0]) /\
      reach (da.dask r) (da.name r, [0; 0]) (da.name scenario, [j; 0]).
Proof.
  assert (H : valid_input scenario 10 2 5) by valid_scenario.
  assert (H' : 10 < 2 ^ 53) by (simpl; lia).
  split; [split; assumption|].
  exact (X8_outputs_depend_on_every_block scenario 10 2 5 None names_init H H').
Defined.

(** ** The order of the stages *)

Ltac rank_of :=
  unfold rank, name_qr_st1, name_q_st1, name_r_st1, name_r_st1_stacked,
    name_qr_st2, name_q_st2_aux, name_q_st2, name_r_st2, name_q_st3;
  repeat case_decide;
  first
    [ reflexivity
    | exfalso;
      match goal with
      | H : ?x <> ?x |- _ => apply H; reflexivity
      | H : _ +:+ _ = _ +:+ _ |- _ => apply String.app_inj in H; discriminate H
      end ].

Section Rank.
Variable p : string.

Lemma rank_qr_st1 : rank p (name_qr_st1 p) = 1%nat. Proof. rank_of. Qed.
Lemma rank_q_st1 : rank p (name_q_st1 p) = 2%nat. Proof. rank_of. Qed.
Lemma rank_r_st1 : rank p (name_r_st1 p) = 2%nat. Proof. rank_of. Qed.
Lemma rank_stacked : rank p (name_r_st1_stacked p) = 3%nat. Proof. rank_of. Qed.
Lemma rank_qr_st2 : rank p (name_qr_st2 p) = 4%nat. Proof. rank_of. Qed.
Lemma rank_q_st2_aux : rank p (name_q_st2_aux p) = 5%nat. Proof. rank_of. Qed.
Lemma rank_r_st2 : rank p (name_r_st2 p) = 5%nat. Proof. rank_of. Qed.
Lemma rank_q_st2 : rank p (name_q_st2 p) = 6%nat. Proof. rank_of. Qed.
Lemma rank_q_st3 : rank p (name_q_st3 p) = 7%nat. Proof. rank_of. Qed.

Lemma rank_outside name :
  (forall a, a ∈ suffixes -> name <> p +:+ a) -> rank p name = 0%nat.
Proof.
  intros H. unfold rank, name_qr_st1, name_q_st1, name_r_st1,
    name_r_st1_stacked, name_qr_st2, name_q_st2_aux, name_q_st2, name_r_st2,
    name_q_st3.
  repeat case_decide; try reflexivity; exfalso;
    match goal with
    | E : name = p +:+ ?a |- _ => apply (H a); [unfold suffixes; set_solver|exact E]
    end.
Qed.

(** Along every edge of the tasks a call creates the stage goes down. *)
Lemma created_edge_rank data_name nblocks n k t k' :
  (forall a, a ∈ suffixes -> data_name <> p +:+ a) ->
  created p data_name [nblocks; 1] nblocks n !! k = Some t ->
  k' ∈ deps t -> (rank p k'.1 < rank p k.1)%nat.
Proof.
  intros Hout H Hk'. pose proof (rank_outside data_name Hout) as R0.
  unfold created, stage1, stage2, stage3, assembly in H.
  rewrite !update_assoc in H.
  repeat (apply update_lookup_Some in H as [H|H]).
  - apply dsk_q_st3_lookup in H as (i & Hi & -> & ->).
    apply elem_of_cons in Hk' as [->|Hk'];
      [simpl; rewrite rank_q_st1, rank_q_st3; lia|].
    apply list_elem_of_singleton in Hk' as ->.
    simpl. rewrite rank_q_st2, rank_q_st3. lia.
  - apply dsk_q_st2_lookup in H as (i & Hi & -> & ->).
    apply list_elem_of_singleton in Hk' as ->.
    simpl. rewrite rank_q_st2_aux, rank_q_st2. lia.
  - unfold dsk_q_st2_aux in H. rewrite dict_of_singleton in H.
    apply lookup_singleton_Some in H as [<- <-].
    apply list_elem_of_singleton in Hk' as ->.
    simpl. rewrite rank_qr_st2, rank_q_st2_aux. lia.
  - unfold dsk_r_st2 in H. rewrite dict_of_singleton in H.
    apply lookup_singleton_Some in H as [<- <-].
    apply list_elem_of_singleton in Hk' as ->.
    simpl. rewrite rank_qr_st2, rank_r_st2. lia.
  - rewrite dsk_qr_st2_eq in H. apply lookup_singleton_Some in H as [<- <-].
    apply list_elem_of_singleton in Hk' as ->.
    simpl. rewrite rank_stacked, rank_qr_st2. lia.
  - unfold dsk_r_st1_stacked in H. rewrite dict_of_singleton in H.
    apply lookup_singleton_Some in H as [<- <-].
    unfold to_stack in Hk'. rewrite deps_keys in Hk'.
    apply list_elem_of_fmap in Hk' as (i & -> & Hi).
    simpl. rewrite rank_r_st1, rank_stacked. lia.
  - apply dsk_r_st1_lookup in H as (i & Hi & -> & ->).
    apply list_elem_of_singleton in Hk' as ->.
    simpl. rewrite rank_qr_st1, rank_r_st1. lia.
  - apply dsk_q_st1_lookup in H as (i & Hi & -> & ->).
    apply list_elem_of_singleton in Hk' as ->.
    simpl. rewrite rank_qr_st1, rank_q_st1. lia.
  - apply dsk_qr_st1_lookup in H as (i & Hi & -> & ->).
    apply list_elem_of_singleton in Hk' as ->.
    simpl. rewrite R0, rank_qr_st1. lia.
Qed.

End Rank.

Lemma reach_rank (g : gmap key task) p :
  (forall k t k', g !! k = Some t -> k' ∈ deps t ->
                  (rank p k'.1 < rank p k.1)%nat) ->
  forall k k', reach g k k' -> (rank p k'.1 < rank p k.1)%nat.
Proof.
  intros Hg k k' H. induction H as [k t k' Hk Hd|k t k' k'' Hk Hd _ IH].
  - eapply Hg; eassumption.
  - pose proof (Hg k t k' Hk Hd). lia.
Qed.

(** ** Acyclic graphs *)

(** One of the nine dictionaries is among the tasks a call creates. *)
Ltac contained_created NAMED :=
  let s := fresh "s" in let idx := fresh "idx" in
  let t := fresh "t" in let H := fresh "H" in let E := fresh "E" in
  apply map_subseteq_spec; intros [s idx] t H;
  pose proof (NAMED _ _ H) as E; simpl in E; subst s;
  unfold created, stage1, stage2, stage3, assembly; rewrite !update_assoc;
  skip_updates; first [apply update_lookup_new; exact H|exact H].

Section Acyclic.
Variables (p data_name : string) (nblocks n : Z) (data_dask : gmap key task).

Lemma created_keeps :
  Forall (fun d => d ⊆ created p data_name [nblocks; 1] nblocks n)
    [dsk_qr_st1 p data_name [nblocks; 1]; dsk_q_st1 p nblocks;
     dsk_r_st1 p nblocks; dsk_r_st1_stacked p nblocks; dsk_qr_st2 p;
     dsk_r_st2 p; dsk_q_st2_aux p; dsk_q_st2 p [nblocks; 1] n;
     dsk_q_st3 p [nblocks; 1]].
Proof.
  repeat apply Forall_cons_2; [| | | | | | | | |apply Forall_nil_2].
  - contained_created (dsk_qr_st1_named p data_name [nblocks; 1]).
  - contained_created (dsk_q_st1_named p nblocks).
  - contained_created (dsk_r_st1_named p nblocks).
  - contained_created (dsk_r_st1_stacked_named p nblocks).
  - contained_created (dsk_qr_st2_named p).
  - contained_created (dsk_r_st2_named p).
  - contained_created (dsk_q_st2_aux_named p).
  - contained_created (dsk_q_st2_named p [nblocks; 1] n).
  - contained_created (dsk_q_st3_named p [nblocks; 1]).
Qed.

(** A task of a returned graph is a task the call creates or a task of
    the input. *)
Lemma dsk_q_from k t :
  dsk_q p data_name [nblocks; 1] nblocks n data_dask !! k = Some t ->
  created p data_name [nblocks; 1] nblocks n !! k = Some t \/
  data_dask !! k = Some t.
Proof.
  pose proof created_keeps as K.
  apply Forall_cons_1 in K as [K1 K]. apply Forall_cons_1 in K as [K2 K].
  apply Forall_cons_1 in K as [K3 K]. apply Forall_cons_1 in K as [K4 K].
  apply Forall_cons_1 in K as [K5 K]. apply Forall_cons_1 in K as [K6 K].
  apply Forall_cons_1 in K as [K7 K]. apply Forall_cons_1 in K as [K8 K].
  apply Forall_cons_1 in K as [K9 _].
  unfold dsk_q. cbv zeta. rewrite update_empty. intros H.
  repeat (apply update_lookup_Some in H as [H|H]);
    [left; eapply map_subseteq_spec in H; [exact H|eassumption]..|right; exact H].
Qed.

Lemma dsk_r_from k t :
  dsk_r p data_name [nblocks; 1] nblocks data_dask !! k = Some t ->
  created p data_name [nblocks; 1] nblocks n !! k = Some t \/
  data_dask !! k = Some t.
Proof.
  pose proof created_keeps as K.
  apply Forall_cons_1 in K as [K1 K]. apply Forall_cons_1 in K as [K2 K].
  apply Forall_cons_1 in K as [K3 K]. apply Forall_cons_1 in K as [K4 K].
  apply Forall_cons_1 in K as [K5 K]. apply Forall_cons_1 in K as [K6 K].
  apply Forall_cons_1 in K as [K7 K]. apply Forall_cons_1 in K as [K8 K].
  apply Forall_cons_1 in K as [K9 _].
  unfold dsk_r. cbv zeta. rewrite update_empty. intros H.
  repeat (apply update_lookup_Some in H as [H|H]);
    [left; eapply map_subseteq_spec in H; [exact H|eassumption]..|right; exact H].
Qed.

Hypothesis input_outside : forall k, is_Some (data_dask !! k) -> outside p k.
Hypothesis name_outside : forall a, a ∈ suffixes -> data_name <> p +:+ a.
Hypothesis input_closed : closed data_dask.
Hypothesis input_acyclic : forall k, ~ reach data_dask k k.

(** A path of a returned graph goes down the stages until it enters
    the input's graph, and then stays there. *)
Lemma reach_input (g : gmap key task) :
  (forall k t, g !! k = Some t ->
     created p data_name [nblocks; 1] nblocks n !! k = Some t \/
     data_dask !! k = Some t) ->
  forall k k', reach g k k' ->
    (rank p k'.1 < rank p k.1)%nat \/
    (rank p k.1 = 0%nat /\ rank p k'.1 = 0%nat /\ reach data_dask k k').
Proof.
  intros Hg k k' H.
  induction H as [k t k' Hk Hd|k t k' k'' Hk Hd _ IH];
    destruct (Hg k t Hk) as [C|D].
  - left. exact (created_edge_rank p data_name nblocks n k t k' name_outside C Hd).
  - right. split; [apply rank_outside, input_outside; eauto|].
    split; [apply rank_outside, input_outside, (input_closed k t D k' Hd)|].
    eapply reach_edge; eassumption.
  - pose proof (created_edge_rank p data_name nblocks n k t k' name_outside C Hd).
    left. destruct IH as [IH|(R1 & R2 & _)]; lia.
  - assert (R0 : rank p k.1 = 0%nat)
      by (apply rank_outside, input_outside; eauto).
    destruct IH as [IH|(R1 & R2 & IH)].
    + assert (rank p k'.1 = 0%nat)
        by (apply rank_outside, input_outside, (input_closed k t D k' Hd)).
      lia.
    + right. split; [exact R0|]. split; [exact R2|].
      eapply reach_step; eassumption.
Qed.

Lemma merged_acyclic (g : gmap key task) :
  (forall k t, g !! k = Some t ->
     created p data_name [nblocks; 1] nblocks n !! k = Some t \/
     data_dask !! k = Some t) ->
  forall k, ~ reach g k k.
Proof.
  intros Hg k H. destruct (reach_input g Hg k k H) as [L|(_ & _ & R)]; [lia|].
  exact (input_acyclic k R).
Qed.

End Acyclic.

(** X9: on every valid input whose graph is closed, acyclic and
    without a key in the call's namespace, and whose name is not in
    the namespace either, the graphs of both handles are acyclic.  The
    tasks the call creates are ordered by stage: every dependency of a
    created task belongs to an earlier stage (the input, the local
    factorizations, their extractions, the stack, the global
    factorization, its extractions, the slices, the products), and no
    task of the input depends on a created task; so no task of a
    returned graph depends on itself, directly or through others. *)
Theorem X9_returned_graphs_acyclic data m n br name names :
  valid_input data m n br ->
  (forall a, a ∈ suffixes -> da.name data <> prefix_of name names +:+ a) ->
  (forall k, is_Some (da.dask data !! k) -> outside (prefix_of name names) k) ->
  closed (da.dask data) ->
  (forall k, ~ reach (da.dask data) k k) ->
  exists q r,
    qr data name names = (Ok (q, r), (choose_prefix name names).2) /\
    (forall k t k',
       new_tasks data name names !! k = Some t -> k' ∈ deps t ->
       (rank (prefix_of name names) k'.1
        < rank (prefix_of name names) k.1)%nat) /\
    (forall k, ~ reach (da.dask q) k k) /\
    (forall k, ~ reach (da.dask r) k k).
Proof.
  intros Hv Hname Hout Hc Ha.
  destruct (qr_valid data m n br name names Hv) as (nblocks & Hnb & Hf & Hq).
  destruct (new_tasks_valid data m n br name names Hv) as (nb' & _ & Hf' & ->).
  assert (nb' = nblocks) by congruence. subst nb'.
  eexists _, _. split; [exact Hq|]. simpl da.dask.
  split; [intros k t k'; apply created_edge_rank; exact Hname|].
  split.
  - apply (merged_acyclic (prefix_of name names) (da.name data) nblocks n
             (da.dask data) Hout Hname Hc Ha).
    intros k t. apply dsk_q_from.
  - apply (merged_acyclic (prefix_of name names) (da.name data) nblocks n
             (da.dask data) Hout Hname Hc Ha).
    intros k t. apply dsk_r_from.
Qed.

Lemma scenario_acyclic : forall k, ~ reach (da.dask scenario) k k.
Proof.
  assert (E : forall k t k',
             da.dask scenario !! k = Some t -> k' ∈ deps t -> False).
  { intros k t k' H Hk'. apply dict_of_lookup_elem in H.
    repeat (apply elem_of_cons in H as [H|H]);
      try (injection H as _ ->; apply elem_of_nil in Hk'; destruct Hk').
    apply elem_of_nil in H. destruct H. }
  intros k H. destruct H; eapply E; eassumption.
Qed.

Lemma X9_returned_graphs_acyclic_witness :
  (valid_input scenario 10 2 5 /\
   (forall a, a ∈ suffixes ->
              da.name scenario <> prefix_of (Some "t") names_init +:+ a) /\
   (forall k, is_Some (da.dask scenario !! k) ->
              outside (prefix_of (Some "t") names_init) k) /\
   closed (da.dask scenario) /\
   (forall k, ~ reach (da.dask scenario) k k)) /\
  exists q r,
    qr scenario (Some "t") names_init
    = (Ok (q, r), (choose_prefix (Some "t") names_init).2) /\
    (forall k t k',
       new_tasks scenario (Some "t") names_init !! k = Some t -> k' ∈ deps t ->
       (rank (prefix_of (Some "t") names_init) k'.1
        < rank (prefix_of (Some "t") names_init) k.1)%nat) /\
    (forall k, ~ reach (da.dask q) k k) /\
    (forall k, ~ reach (da.dask r) k k).
Proof.
  assert (H1 : valid_input scenario 10 2 5) by valid_scenario.
  assert (H2 : forall a, a ∈ suffixes ->
                 da.name scenario <> prefix_of (Some "t") names_init +:+ a).
  { intros a Ha. unfold suffixes in Ha.
    repeat (apply elem_of_cons in Ha as [->|Ha]); try discriminate;
      try (apply elem_of_nil in Ha; destruct Ha). }
  assert (H3 : forall k, is_Some (da.dask scenario !! k) ->
                 outside (prefix_of (Some "t") names_init) k).
  { intros k. apply scenario_outside. exact H2. }
  assert (H4 : closed (da.dask scenario)) by exact scenario_closed.
  assert (H5 : forall k, ~ reach (da.dask scenario) k k)
    by exact scenario_acyclic.
  split; [exact (conj H1 (conj H2 (conj H3 (conj H4 H5))))|].
  exact (X9_returned_graphs_acyclic scenario 10 2 5 (Some "t") names_init
           H1 H2 H3 H4 H5).
Defined.

(** ** Name collisions *)

(** X10: [qr] does not check that the input's name is outside its own
    namespace.  On a valid input of fewer than [2^53] rows named like
    the call's local factorizations, the factorization task of each
    row block of the input replaces the input block of the same key in
    both graphs and depends on itself. *)
Theorem X10_collision_makes_self_loop data m n br name names :
  valid_input data m n br -> m < 2 ^ 53 ->
  da.name data = name_qr_st1 (prefix_of name names) ->
  exists bd0 q r,
    da.blockdims data !! 0%nat = Some bd0 /\
    qr data name names = (Ok (q, r), (choose_prefix name names).2) /\
    1 <= Z.of_nat (length bd0) /\
    forall i, 0 <= i < Z.of_nat (length bd0) ->
      da.dask q !! (da.name data, [i; 0])
      = Some (np_linalg_qr, [Key (da.name data, [i; 0])]) /\
      da.dask r !! (da.name data, [i; 0])
      = Some (np_linalg_qr, [Key (da.name data, [i; 0])]) /\
      reach (da.dask q) (da.name data, [i; 0]) (da.name data, [i; 0]) /\
      reach (da.dask r) (da.name data, [i; 0]) (da.name data, [i; 0]).
Proof.
  intros Hv Hm Hname.
  destruct (qr_valid_blocks data m n br name names Hv Hm)
    as (bd0 & Hb & Hnb & Hf & Hn & Hq).
  exists bd0. eexists _, _. split; [exact Hb|]. split; [exact Hq|].
  split; [exact Hnb|].
  intros i Hi. simpl da.dask.
  pose proof (dsk_q_qr_st1 (prefix_of name names) (da.name data)
                (Z.of_nat (length bd0)) n (da.dask data) i Hi) as Q.
  pose proof (dsk_r_qr_st1 (prefix_of name names) (da.name data)
                (Z.of_nat (length bd0)) (da.dask data) i Hi) as R.
  rewrite <- Hname in Q, R.
  split; [exact Q|]. split; [exact R|].
  split; eapply reach_edge; try eassumption; apply list_elem_of_here.
Qed.

Lemma X10_collision_makes_self_loop_witness :
  (valid_input colliding 10 2 5 /\ 10 < 2 ^ 53 /\
   da.name colliding = name_qr_st1 (prefix_of (Some "t") names_init)) /\
  exists bd0 q r,
    da.blockdims colliding !! 0%nat = Some bd0 /\
    qr colliding (Some "t") names_init
    = (Ok (q, r), (choose_prefix (Some "t") names_init).2) /\
    1 <= Z.of_nat (length bd0) /\
    forall i, 0 <= i < Z.of_nat (length bd0) ->
      da.dask q !! (da.name colliding, [i; 0])
      = Some (np_linalg_qr, [Key (da.name colliding, [i; 0])]) /\
      da.dask r !! (da.name colliding, [i; 0])
      = Some (np_linalg_qr, [Key (da.name colliding, [i; 0])]) /\
      reach (da.dask q) (da.name colliding, [i; 0]) (da.name colliding, [i; 0]) /\
      reach (da.dask r) (da.name colliding, [i; 0]) (da.name colliding, [i; 0]).
Proof.
  assert (H : valid_input colliding 10 2 5) by valid_scenario.
  assert (H0 : 10 < 2 ^ 53) by (simpl; lia).
  assert (H' : da.name colliding
               = name_qr_st1 (prefix_of (Some "t") names_init)) by reflexivity.
  split; [exact (conj H (conj H0 H'))|].
  exact (X10_collision_makes_self_loop colliding 10 2 5 (Some "t") names_init
           H H0 H').
Defined.

(** ** The generator over a session *)

Lemma qr_names_step data name names :
  (qr data name names).2 = if draws data name then N.succ names else names.
Proof.
  unfold qr, draws. destruct (check data) as [[[bs m] n]|e]; [|reflexivity].
  destruct name as [[|c s]|]; reflexivity.
Qed.

(** X11: the generator advances by exactly one for every call that
    passes the validation without a non-empty name, also when the call
    fails later, and not at all for any other call: after a session its
    state is the initial state plus the number of such calls. *)
Theorem X11_names_count_drawing_calls calls names :
  session_end calls names
  = (names + N.of_nat (length (filter (fun c => draws c.1 c.2 = true) calls)))%N.
Proof.
  revert names. induction calls as [|[data name] calls IH]; intros names.
  - simpl. lia.
  - simpl session_end. rewrite IH, qr_names_step.
    destruct (draws data name) eqn:E.
    + rewrite filter_cons_True by exact E. simpl length. lia.
    + rewrite filter_cons_False by (simpl; congruence). lia.
Qed.

(** ** Failures after the draw *)

(** X12: an input that passes the validation with a zero extent in its
    block shape, and dimensions that convert to [float], makes [qr]
    raise [ZeroDivisionError] in the block planner, after the prefix is
    chosen: an unnamed call has then consumed a name of the generator. *)
Theorem X12_zero_block_extent data m n br bc rows name names :
  da.shape data = [m; n] ->
  da.blockdims data = [br :: rows; [bc]] ->
  Z.abs m < Float.int_bound -> Z.abs n < Float.int_bound ->
  Z.abs br < Float.int_bound ->
  br = 0 \/ bc = 0 ->
  qr data name names = (Raise ZeroDivisionError, (choose_prefix name names).2) /\
  (qr data None names).2 = N.succ names.
Proof.
  intros Hs Hb Hm Hn Hbr Hz.
  assert (Hc : check data = Ok ([br; bc], m, n)).
  { unfold check, da.ndim. rewrite Hs, Hb. reflexivity. }
  assert (Hf : _findnumblocks (da.shape data) [br; bc] = Raise ZeroDivisionError).
  { rewrite Hs. unfold _findnumblocks.
    change (zip [m; n] [br; bc]) with [(m, br); (n, bc)].
    cbn [mapM]. destruct (Z.eq_dec br 0) as [->|Hbr0].
    - rewrite (div_ceil_by_zero m Hm). reflexivity.
    - destruct Hz as [Hz|Hz]; [contradiction|]. subst bc.
      destruct (div_ceil_returns m br Hm Hbr Hbr0) as [k ->].
      rewrite (div_ceil_by_zero n Hn). reflexivity. }
  split.
  - unfold qr. rewrite Hc. destruct (choose_prefix name names) as [p0 names'].
    unfold build. rewrite Hf. reflexivity.
  - rewrite qr_names_step. unfold draws. rewrite Hc. reflexivity.
Qed.

Lemma X12_zero_block_extent_witness :
  (da.shape empty_first_block = [5; 2] /\
   da.blockdims empty_first_block = [0 :: [5]; [2]] /\
   Z.abs 5 < Float.int_bound /\ Z.abs 2 < Float.int_bound /\
   Z.abs 0 < Float.int_bound /\ (0 = 0 \/ 2 = 0)) /\
  qr empty_first_block None names_init
  = (Raise ZeroDivisionError, (choose_prefix None names_init).2) /\
  (qr empty_first_block None names_init).2 = N.succ names_init.
Proof.
  assert (H1 : da.shape empty_first_block = [5; 2]) by reflexivity.
  assert (H2 : da.blockdims empty_first_block = [0 :: [5]; [2]]) by reflexivity.
  assert (H3 : Z.abs 5 < Float.int_bound) by (vm_compute; reflexivity).
  assert (H4 : Z.abs 2 < Float.int_bound) by (vm_compute; reflexivity).
  assert (H5 : Z.abs 0 < Float.int_bound) by (vm_compute; reflexivity).
  assert (H6 : 0 = 0 \/ 2 = 0) by (left; reflexivity).
  split; [exact (conj H1 (conj H2 (conj H3 (conj H4 (conj H5 H6)))))|].
  exact (X12_zero_block_extent empty_first_block 5 2 0 2 [5] None names_init
           H1 H2 H3 H4 H5 H6).
Defined.

(** ** The number of tasks *)

Lemma dict_of_list_to_map {V} (l : list (key * V)) :
  dict_of l = list_to_map (reverse l).
Proof.
  induction l as [|[k v] l IH] using rev_ind; [reflexivity|].
  rewrite dict_of_snoc, reverse_snoc, IH. reflexivity.
Qed.

Lemma size_dict_of_fmap {A V} (h : A -> key * V) (xs : list A) :
  NoDup xs -> (forall x y, (h x).1 = (h y).1 -> x = y) ->
  size (dict_of (h <$> xs)) = length xs.
Proof.
  intros Hxs Hh. rewrite dict_of_list_to_map, map_size_list_to_map.
  - rewrite length_reverse, length_fmap. reflexivity.
  - rewrite fmap_reverse, reverse_Permutation, <- list_fmap_compose.
    apply NoDup_fmap_2_strong; [|exact Hxs]. intros x y _ _ E. apply Hh. exact E.
Qed.

Lemma size_rows {V} (h : list Z -> key * V) nblocks :
  (forall x y, (h x).1 = (h y).1 -> x = y) ->
  size (dict_of (h <$> product (xrange <$> [nblocks; 1]))) = Z.to_nat nblocks.
Proof.
  intros Hh. rewrite product_rows, size_dict_of_fmap.
  - rewrite length_fmap. apply length_seqZ.
  - apply NoDup_fmap_2_strong; [|apply NoDup_seqZ]. intros x y _ _ E. congruence.
  - exact Hh.
Qed.

Lemma named_disjoint (a b : string) (d1 d2 : gmap key task) :
  named a d1 -> named b d2 -> a <> b -> d1 ##ₘ d2.
Proof.
  intros H1 H2 Hab. apply map_disjoint_spec. intros k x y E1 E2.
  apply Hab. rewrite <- (H1 k x E1). exact (H2 k y E2).
Qed.

Lemma named_disjoint_input (name : string) (d g : gmap key task) :
  named name d -> (forall k, is_Some (g !! k) -> k.1 <> name) -> d ##ₘ g.
Proof.
  intros H1 H2. apply map_disjoint_spec. intros k x y E1 E2.
  apply (H2 k); [eauto|]. exact (H1 k x E1).
Qed.

(** Two dictionaries of a call share no key; nor does one of them and
    an input graph outside the namespace. *)
Ltac apart :=
  repeat first [apply map_disjoint_union_r_2|apply map_disjoint_union_l_2];
  first
    [ apply map_disjoint_empty_r
    | eapply named_disjoint;
        [solve [auto with tsqr_names]|solve [auto with tsqr_names]|];
      unfold name_qr_st1, name_q_st1, name_r_st1, name_r_st1_stacked,
        name_qr_st2, name_q_st2_aux, name_q_st2, name_r_st2, name_q_st3;
      apply prefix_names_ne; discriminate
    | eapply named_disjoint_input; [solve [auto with tsqr_names]|];
      let k := fresh "k" in let Hk := fresh "Hk" in
      intros k Hk;
      match goal with
      | Hout : forall k, is_Some (_ !! k) -> outside _ k |- _ =>
          unfold name_qr_st1, name_q_st1, name_r_st1, name_r_st1_stacked,
            name_qr_st2, name_q_st2_aux, name_q_st2, name_r_st2, name_q_st3;
          apply (Hout k Hk); unfold suffixes; set_solver
      end ].

Section Sizes.
Variables (p data_name : string) (nblocks n : Z).

Lemma dsk_qr_st1_size :
  size (dsk_qr_st1 p data_name [nblocks; 1]) = Z.to_nat nblocks.
Proof. unfold dsk_qr_st1, da.top. apply size_rows. intros x y E. simpl in E. congruence. Qed.

Lemma dsk_q_st1_size : size (dsk_q_st1 p nblocks) = Z.to_nat nblocks.
Proof.
  unfold dsk_q_st1. rewrite size_dict_of_fmap.
  - apply length_seqZ.
  - apply NoDup_seqZ.
  - intros x y E. simpl in E. congruence.
Qed.

Lemma dsk_r_st1_size : size (dsk_r_st1 p nblocks) = Z.to_nat nblocks.
Proof.
  unfold dsk_r_st1. rewrite size_dict_of_fmap.
  - apply length_seqZ.
  - apply NoDup_seqZ.
  - intros x y E. simpl in E. congruence.
Qed.

Lemma dsk_r_st1_stacked_size : size (dsk_r_st1_stacked p nblocks) = 1%nat.
Proof. unfold dsk_r_st1_stacked. rewrite dict_of_singleton. apply map_size_singleton. Qed.

Lemma dsk_qr_st2_size : size (dsk_qr_st2 p) = 1%nat.
Proof.
  unfold dsk_qr_st2, da.top.
  change (product (xrange <$> [1; 1])) with [[0; 0]].
  simpl fmap. rewrite dict_of_singleton. apply map_size_singleton.
Qed.

Lemma dsk_q_st2_aux_size : size (dsk_q_st2_aux p) = 1%nat.
Proof. unfold dsk_q_st2_aux. rewrite dict_of_singleton. apply map_size_singleton. Qed.

Lemma dsk_q_st2_size : size (dsk_q_st2 p [nblocks; 1] n) = Z.to_nat nblocks.
Proof. unfold dsk_q_st2. apply size_rows. intros x y E. simpl in E. congruence. Qed.

Lemma dsk_r_st2_size : size (dsk_r_st2 p) = 1%nat.
Proof. unfold dsk_r_st2. rewrite dict_of_singleton. apply map_size_singleton. Qed.

Lemma dsk_q_st3_size : size (dsk_q_st3 p [nblocks; 1]) = Z.to_nat nblocks.
Proof. unfold dsk_q_st3, da.top. apply size_rows. intros x y E. simpl in E. congruence. Qed.

Lemma created_size :
  size (created p data_name [nblocks; 1] nblocks n)
  = (5 * Z.to_nat nblocks + 4)%nat.
Proof.
  unfold created, assembly, stage3, stage2, stage1, update.
  repeat (rewrite map_size_disj_union by apart).
  rewrite dsk_qr_st1_size, dsk_q_st1_size, dsk_r_st1_size,
    dsk_r_st1_stacked_size, dsk_qr_st2_size, dsk_q_st2_aux_size,
    dsk_q_st2_size, dsk_r_st2_size, dsk_q_st3_size.
  lia.
Qed.

Variable data_dask : gmap key task.
Hypothesis input_outside : forall k, is_Some (data_dask !! k) -> outside p k.

Lemma dsk_q_size :
  size (dsk_q p data_name [nblocks; 1] nblocks n data_dask)
  = (size data_dask + 5 * Z.to_nat nblocks + 3)%nat.
Proof.
  unfold dsk_q, update. cbv zeta.
  repeat (rewrite map_size_disj_union by apart).
  rewrite dsk_qr_st1_size, dsk_q_st1_size, dsk_r_st1_size,
    dsk_r_st1_stacked_size, dsk_qr_st2_size, dsk_q_st2_aux_size,
    dsk_q_st2_size, dsk_q_st3_size, map_size_empty.
  lia.
Qed.

Lemma dsk_r_size :
  size (dsk_r p data_name [nblocks; 1] nblocks data_dask)
  = (size data_dask + 2 * Z.to_nat nblocks + 3)%nat.
Proof.
  unfold dsk_r, update. cbv zeta.
  repeat (rewrite map_size_disj_union by apart).
  rewrite dsk_qr_st1_size, dsk_r_st1_size, dsk_r_st1_stacked_size,
    dsk_qr_st2_size, dsk_r_st2_size, map_size_empty.
  lia.
Qed.

End Sizes.

(** X13: on every valid input of fewer than [2^53] rows whose graph
    has no key in the call's namespace, a call on an input of [b] row
    blocks creates [5 * b + 4] tasks; the graph of [q] has [5 * b + 3]
    tasks more than the input's graph and the graph of [r] has
    [2 * b + 3] more. *)
Theorem X13_task_counts data m n br name names :
  valid_input data m n br -> m < 2 ^ 53 ->
  (forall k, is_Some (da.dask data !! k) -> outside (prefix_of name names) k) ->
  exists bd0 q r,
    da.blockdims data !! 0%nat = Some bd0 /\
    qr data name names = (Ok (q, r), (choose_prefix name names).2) /\
    size (new_tasks data name names) = (5 * length bd0 + 4)%nat /\
    size (da.dask q) = (size (da.dask data) + 5 * length bd0 + 3)%nat /\
    size (da.dask r) = (size (da.dask data) + 2 * length bd0 + 3)%nat.
Proof.
  intros Hv Hm Hout.
  destruct (qr_valid_blocks data m n br name names Hv Hm)
    as (bd0 & Hb & Hnb & Hf & Hn & Hq).
  exists bd0. eexists _, _. split; [exact Hb|]. split; [exact Hq|].
  simpl da.dask. rewrite Hn, created_size, dsk_q_size, dsk_r_size by exact Hout.
  rewrite Nat2Z.id. auto.
Qed.

Lemma X13_task_counts_witness :
  (valid_input scenario 10 2 5 /\ 10 < 2 ^ 53 /\
   forall k, is_Some (da.dask scenario !! k) ->
             outside (prefix_of (Some "t") names_init) k) /\
  exists bd0 q r,
    da.blockdims scenario !! 0%nat = Some bd0 /\
    qr scenario (Some "t") names_init
    = (Ok (q, r), (choose_prefix (Some "t") names_init).2) /\
    size (new_tasks scenario (Some "t") names_init)
    = (5 * length bd0 + 4)%nat /\
    size (da.dask q) = (size (da.dask scenario) + 5 * length bd0 + 3)%nat /\
    size (da.dask r) = (size (da.dask scenario) + 2 * length bd0 + 3)%nat.
Proof.
  assert (H : valid_input scenario 10 2 5) by valid_scenario.
  assert (H0 : 10 < 2 ^ 53) by (simpl; lia).
  assert (H' : forall k, is_Some (da.dask scenario !! k) ->
                         outside (prefix_of (Some "t") names_init) k).
  { intros k. apply scenario_outside. intros a Ha. unfold suffixes in Ha.
    repeat (apply elem_of_cons in Ha as [->|Ha]); try discriminate;
      try (apply elem_of_nil in Ha; destruct Ha). }
  split; [exact (conj H (conj H0 H'))|].
  exact (X13_task_counts scenario 10 2 5 (Some "t") names_init H H0 H').
Defined.

(** ** The outcomes of the validation *)

(** X14: the validation of [qr] accepts exactly the two-dimensional
    arrays with a row block and one column block, and reads the block
    shape from the first block of each axis.  It raises [ValueError]
    when the array is not two-dimensional or has not one column block,
    and [IndexError] when a two-dimensional array with one column block
    has no row block, or its block extents have no second axis; it
    raises nothing else, and a call that it rejects leaves the
    generator untouched. *)
Theorem X14_validation_outcome data name names :
  match check data with
  | Ok (blockshape, m, n) =>
      da.shape data = [m; n] /\
      exists br rows bc rest,
        da.blockdims data = (br :: rows) :: [bc] :: rest /\
        blockshape = [br; bc]
  | Raise ValueError =>
      (length (da.shape data) <> 2%nat \/
       exists bd1, da.blockdims data !! 1%nat = Some bd1 /\ length bd1 <> 1%nat) /\
      qr data name names = (Raise ValueError, names)
  | Raise IndexError =>
      length (da.shape data) = 2%nat /\
      (da.blockdims data !! 1%nat = None \/
       exists bc rest, da.blockdims data = [] :: [bc] :: rest) /\
      qr data name names = (Raise IndexError, names)
  | Raise _ => False
  end.
Proof.
  assert (Q : forall e, check data = Raise e -> qr data name names = (Raise e, names)).
  { intros e E. unfold qr. rewrite E. reflexivity. }
  revert Q. unfold check, index, da.ndim.
  destruct (da.shape data) as [|m [|n [|x s]]]; simpl; intros Q;
    try (split; [left; discriminate|apply Q; reflexivity]).
  destruct (da.blockdims data) as [|bd0 [|bd1 rest]]; simpl in *;
    try (split; [reflexivity|]; split; [left; reflexivity|apply Q; reflexivity]).
  destruct bd1 as [|bc [|y bd1]]; simpl in *;
    try (split; [right; eexists; split; [reflexivity|discriminate]
                |apply Q; reflexivity]).
  destruct bd0 as [|br rows]; simpl in *.
  - split; [reflexivity|]. split; [right; eauto|apply Q; reflexivity].
  - split; [reflexivity|]. eauto 10.
Qed.

(** ** The block planner on any number of axes *)

(** X15: [_findnumblocks] pairs the axes of the two tuples as [zip]
    does, so the axes that the shorter tuple lacks are dropped; when
    the extents are positive and below [2^53] it returns the exact
    ceiling of each quotient. *)
Theorem X15_findnumblocks_exact shape blockshape :
  Forall (fun a => 0 < a < 2 ^ 53) shape ->
  Forall (fun b => 0 < b < 2 ^ 53) blockshape ->
  _findnumblocks shape blockshape = Ok (zip_with ceil_div shape blockshape) /\
  length (zip_with ceil_div shape blockshape)
  = Nat.min (length shape) (length blockshape).
Proof.
  intros Hs Hb. split; [|apply length_zip_with].
  unfold _findnumblocks. revert blockshape Hb.
  induction Hs as [|a shape Ha Hs IH]; intros blockshape Hb; [reflexivity|].
  destruct Hb as [|b blockshape Hb0 Hb]; [reflexivity|].
  change (zip (a :: shape) (b :: blockshape))
    with ((a, b) :: zip shape blockshape).
  cbn [mapM]. rewrite (div_ceil_exact a b Ha Hb0).
  change (zip_with ceil_div (a :: shape) (b :: blockshape))
    with (ceil_div a b :: zip_with ceil_div shape blockshape).
  rewrite (IH blockshape Hb). reflexivity.
Qed.

Lemma X15_findnumblocks_exact_witness :
  (Forall (fun a => 0 < a < 2 ^ 53) [10; 2; 7] /\
   Forall (fun b => 0 < b < 2 ^ 53) [3; 2]) /\
  _findnumblocks [10; 2; 7] [3; 2] = Ok (zip_with ceil_div [10; 2; 7] [3; 2]) /\
  length (zip_with ceil_div [10; 2; 7] [3; 2])
  = Nat.min (length [10; 2; 7]) (length [3; 2]).
Proof.
  assert (H : Forall (fun a => 0 < a < 2 ^ 53) [10; 2; 7])
    by (repeat constructor; vm_compute; reflexivity).
  assert (H' : Forall (fun b => 0 < b < 2 ^ 53) [3; 2])
    by (repeat constructor; vm_compute; reflexivity).
  split; [split; assumption|].
  exact (X15_findnumblocks_exact [10; 2; 7] [3; 2] H H').
Defined.
